(** * The URL fetcher of certificate-transparency (cpp/net/url_fetcher.{h,cc})

    A shallow embedding of [UrlFetcher]: the request and response records,
    the case-insensitive header multimap, [NormaliseRequest], and the
    per-request [State] object with its constructor, [MakeRequest] and
    [RequestDone], followed by the properties the specification states
    about them.

    The collaborators whose code is another component (the task, the
    connection pool, libevent) are represented by the calls the fetcher
    makes on them, recorded in order in a log, and by an environment that
    supplies what they answer. *)

From Stdlib Require Import List String Ascii ZArith NArith Bool Lia Permutation.
From Stdlib Require Import DecimalString.
Import ListNotations.

Local Open Scope string_scope.
Local Open Scope Z_scope.

(** ** std::multimap over a strict weak order

    [std::multimap<K, V, Compare>] keeps its entries ordered by [Compare];
    entries with equivalent keys stay in the order of their insertion
    (C++11 [multimap.modifiers]: the new entry goes to the upper bound of
    the range of equivalent keys).  An iterator is the suffix of the entry
    list it points at. *)

Section Multimap.

Variables K V : Type.
Variable less : K -> K -> bool.

Definition entry : Type := K * V.

(** Two keys are equivalent when neither is ordered before the other. *)
Definition equiv (a b : K) : bool := negb (less a b) && negb (less b a).

(** First position whose key is not ordered before [k]. *)
Fixpoint lower_bound (k : K) (m : list entry) : list entry :=
  match m with
  | [] => []
  | e :: m' => if less (fst e) k then lower_bound k m' else m
  end.

(** First position whose key is ordered after [k]. *)
Fixpoint upper_bound (k : K) (m : list entry) : list entry :=
  match m with
  | [] => []
  | e :: m' => if less k (fst e) then m else upper_bound k m'
  end.

(** [find]: the entry at the lower bound when its key is equivalent to
    [k], that is the first of the entries under that key, as libstdc++ and
    libc++ find it; [None] stands for [end()]. *)
Definition find (k : K) (m : list entry) : option entry :=
  match lower_bound k m with
  | [] => None
  | e :: _ => if less k (fst e) then None else Some e
  end.

(** The entries between two positions: from the start of [m] up to the
    first key ordered after [k]. *)
Fixpoint until_greater (k : K) (m : list entry) : list entry :=
  match m with
  | [] => []
  | e :: m' => if less k (fst e) then [] else e :: until_greater k m'
  end.

(** [equal_range]: the entries from the lower to the upper bound. *)
Definition equal_range (k : K) (m : list entry) : list entry :=
  until_greater k (lower_bound k m).

(** [insert]: the entry is placed at the upper bound of its key. *)
Fixpoint insert (kv : entry) (m : list entry) : list entry :=
  match m with
  | [] => [kv]
  | e :: m' => if less (fst kv) (fst e) then kv :: m else e :: insert kv m'
  end.

(** The container invariant: keys never decrease along the entries. *)
Fixpoint sorted (m : list entry) : bool :=
  match m with
  | [] => true
  | e1 :: m' =>
      match m' with
      | [] => true
      | e2 :: _ => negb (less (fst e2) (fst e1)) && sorted m'
      end
  end.

End Multimap.

Arguments lower_bound {K V}.
Arguments upper_bound {K V}.
Arguments find {K V}.
Arguments until_greater {K V}.
Arguments equal_range {K V}.
Arguments insert {K V}.
Arguments sorted {K V}.

(** ** Case-insensitive header names *)

(** [tolower] of the C locale: only the letters A to Z change. *)
Definition tolower (c : ascii) : ascii :=
  let n := N_of_ascii c in
  if ((65 <=? n) && (n <=? 90))%N then ascii_of_N (n + 32) else c.

Fixpoint strlower (s : string) : string :=
  match s with
  | EmptyString => EmptyString
  | String c s' => String (tolower c) (strlower s')
  end.

(** [std::string::c_str] as a C function reads it: the characters before
    the first NUL. *)
Fixpoint c_str (s : string) : string :=
  match s with
  | EmptyString => EmptyString
  | String c s' =>
      if (c =? "000")%char then EmptyString else String c (c_str s')
  end.

(** Modelled from the spec: util/compare.h, which declares [ci_less], is not
    among the sources.  The specification requires header names to be
    compared case-insensitively: the names are ordered as their lower-cased
    forms, byte by byte as unsigned characters. *)
Definition ci_less (a b : string) : bool :=
  String.ltb (strlower a) (strlower b).

(** Two names that differ only in the case of their letters. *)
Definition same_ignoring_case (a b : string) : Prop :=
  strlower a = strlower b.

(** [UrlFetcher::Headers]:
    [std::multimap<std::string, std::string, ci_less<std::string>>]. *)
Definition Headers : Type := list (string * string).

Definition Headers_find (k : string) (h : Headers) : option (string * string) :=
  find ci_less k h.

Definition Headers_insert (kv : string * string) (h : Headers) : Headers :=
  insert ci_less kv h.

Definition Headers_equal_range (k : string) (h : Headers) : Headers :=
  equal_range ci_less k h.

Definition Headers_sorted (h : Headers) : bool := sorted ci_less h.

Definition Headers_clear (h : Headers) : Headers := [].

(** ** URL, verbs, requests and responses *)

(** Modelled from the spec: net/url.h is not among the sources.  A URL is an
    opaque value with accessors for protocol, host, port, path and query, a
    path setter, and the combined path and query string. *)
Record URL : Type := mkURL {
  Protocol : string;
  Host : string;
  Port : Z;
  Path : string;
  Query : string
}.

Definition SetPath (u : URL) (p : string) : URL :=
  {| Protocol := Protocol u; Host := Host u; Port := Port u;
     Path := p; Query := Query u |}.

(** Modelled from the spec: the path followed, when there is a query, by a
    question mark and the query. *)
Definition PathQuery (u : URL) : string :=
  if (Query u =? "")%string then Path u else Path u ++ "?" ++ Query u.

Inductive Verb : Type := GET | POST | PUT | DELETE.

Inductive evhttp_cmd_type : Type :=
| EVHTTP_REQ_GET | EVHTTP_REQ_POST | EVHTTP_REQ_HEAD | EVHTTP_REQ_PUT
| EVHTTP_REQ_DELETE | EVHTTP_REQ_OPTIONS | EVHTTP_REQ_TRACE
| EVHTTP_REQ_CONNECT | EVHTTP_REQ_PATCH.

Definition VerbToCmdType (verb : Verb) : evhttp_cmd_type :=
  match verb with
  | GET => EVHTTP_REQ_GET
  | POST => EVHTTP_REQ_POST
  | PUT => EVHTTP_REQ_PUT
  | DELETE => EVHTTP_REQ_DELETE
  end.

(** [std::chrono::steady_clock::time_point] as the count of clock ticks
    since the clock's epoch; the clock ticks in nanoseconds and the count is
    a signed 64-bit integer. *)
Definition time_point : Type := Z.

Definition ticks_per_second : Z := 1000000000.

Definition seconds (n : Z) : Z := n * ticks_per_second.

(** The value a signed 64-bit integer takes for [z]: the result the
    compiled code gets when a difference of two tick counts leaves the
    range, by wrap-around. *)
Definition int64 (z : Z) : Z := (z + 2 ^ 63) mod 2 ^ 64 - 2 ^ 63.

Module Request.
Record t : Type := mk {
  verb : Verb;
  url : URL;
  headers : Headers;
  body : string;
  deadline : time_point
}.
End Request.

Module Response.
Record t : Type := mk {
  status_code : Z;
  headers : Headers;
  body : string
}.

(** [Response() : status_code(0)]. *)
Definition default : t := mk 0 [] "".
End Response.

(** [Request(const URL& input_url) : verb(Verb::GET), url(input_url)]. *)
Definition Request_of_URL (input_url : URL) : Request.t :=
  Request.mk GET input_url [] "" 0.

(** ** Collaborators: status, task, pool, libevent *)

(** Modelled from the spec: util/status.h is not among the sources.  The
    error kinds are the ones the fetcher returns; a status is a kind with a
    message, [Status::UNKNOWN] and the OK status carrying no message. *)
Module error.
Inductive Code : Type :=
| OK | UNKNOWN | INVALID_ARGUMENT | DEADLINE_EXCEEDED
| FAILED_PRECONDITION | INTERNAL.
End error.

Record Status : Type := mkStatus {
  error_code : error.Code;
  error_message : string
}.

Definition Status_OK : Status := mkStatus error.OK "".
Definition Status_UNKNOWN : Status := mkStatus error.UNKNOWN "".

(** Modelled from the spec: net/connection_pool.h is not among the
    sources.  The pool hands out a connection for a URL and takes it back;
    a connection is named by a number, and [evhttp_connection_unique_ptr]
    is an optional connection, [None] being the null pointer. *)
Definition connection : Type := N.
Definition evhttp_connection_unique_ptr : Type := option connection.

(** What libevent hands to the completion callback: the response code, the
    input headers in the order received, and the input buffer. *)
Record evhttp_request : Type := mk_evhttp_request {
  response_code : Z;
  input_headers : list (string * string);
  input_buffer : string
}.

(** The calls the fetcher makes on its collaborators. *)
Inductive Call : Type :=
| TaskHold_ctor
| TaskHold_dtor
| Task_Return (s : Status)
| Task_DeleteWhenDone
| Base_Add_MakeRequest
| Pool_Get (u : URL) (c : connection)
| Pool_Put (c : evhttp_connection_unique_ptr)
| evhttp_request_new
| evhttp_add_header (key value : string)
| evbuffer_add_reference (data : string)
| evhttp_make_request_call (c : evhttp_connection_unique_ptr)
    (cmd : evhttp_cmd_type) (uri : string).

(** What the collaborators answer during one transaction. *)
Record Env : Type := mkEnv {
  FLAGS_url_fetcher_default_timeout_seconds : Z;
  now_NormaliseRequest : time_point;
  now_MakeRequest : time_point;
  evbuffer_add_reference_result : Z;
  pool_Get_result : connection;
  evhttp_make_request_result : Z;
  callback_req : option evhttp_request
}.

(** The flag's default, [DEFINE_int32(..., 60, ...)]. *)
Definition default_timeout_seconds : Z := 60.

(** Everything outside the [State] object that a step can change: the
    caller's [Response], the calls made so far, and whether libevent holds a
    submitted request whose callback has not fired yet. *)
Record World : Type := mkWorld {
  response : Response.t;
  log : list Call;
  in_flight : bool
}.

Definition init_world (resp : Response.t) : World := mkWorld resp [] false.

(** A step either finishes or dies on a failed [CHECK]. *)
Inductive outcome (A : Type) : Type :=
| Ok (a : A) (w : World)
| Fatal (msg : string) (w : World).

Arguments Ok {A}.
Arguments Fatal {A}.

Definition M (A : Type) : Type := World -> outcome A.

Definition ret {A} (a : A) : M A := fun w => Ok a w.

Definition bind {A B} (m : M A) (f : A -> M B) : M B :=
  fun w => match m w with
           | Ok a w' => f a w'
           | Fatal msg w' => Fatal msg w'
           end.

Notation "x <- m ;; k" := (bind m (fun x => k))
  (at level 61, m at next level, right associativity).
Notation "m ;; k" := (bind m (fun _ => k))
  (at level 61, right associativity).

Definition call (c : Call) : M unit :=
  fun w => Ok tt (mkWorld (response w) (log w ++ [c]) (in_flight w)).

Definition CHECK (b : bool) (msg : string) : M unit :=
  fun w => if b then Ok tt w else Fatal msg w.

Definition get_response : M Response.t := fun w => Ok (response w) w.

Definition set_response (r : Response.t) : M unit :=
  fun w => Ok tt (mkWorld r (log w) (in_flight w)).

Definition set_in_flight (b : bool) : M unit :=
  fun w => Ok tt (mkWorld (response w) (log w) b).

Definition get_in_flight : M bool := fun w => Ok (in_flight w) w.

Fixpoint for_each {A} (l : list A) (f : A -> M unit) : M unit :=
  match l with
  | [] => ret tt
  | x :: l' => f x ;; for_each l' f
  end.

Definition world_of {A} (o : outcome A) : World :=
  match o with
  | Ok _ w => w
  | Fatal _ w => w
  end.

(** ** The fetcher *)

(** [NormaliseRequest]; the clock is read only when the deadline is unset. *)
Definition NormaliseRequest (env : Env) (req : Request.t) : Request.t :=
  let deadline :=
    if Request.deadline req =? 0
    then now_NormaliseRequest env
         + seconds (FLAGS_url_fetcher_default_timeout_seconds env)
    else Request.deadline req in
  let url :=
    if (Path (Request.url req) =? "")%string
    then SetPath (Request.url req) "/"
    else Request.url req in
  let headers :=
    match Headers_find "Host" (Request.headers req) with
    | None => Headers_insert ("Host", Host url) (Request.headers req)
    | Some _ => Request.headers req
    end in
  Request.mk (Request.verb req) url headers (Request.body req) deadline.

(** The mutable and the request part of [struct State]; [pool_],
    [response_] and [task_] point at the collaborators of the world. *)
Record State : Type := mkState {
  request_ : Request.t;
  conn_ : evhttp_connection_unique_ptr
}.

Definition is_null (p : evhttp_connection_unique_ptr) : bool :=
  match p with
  | None => true
  | Some _ => false
  end.

(** [State::State]. *)
Definition State_ctor (env : Env) (request : Request.t) : M State :=
  let this := mkState (NormaliseRequest env request) None in
  if negb (Protocol (Request.url (request_ this)) =? "http")%string
  then
    call (Task_Return
            (mkStatus error.INVALID_ARGUMENT
               ("UrlFetcher: unsupported protocol: "
                ++ Protocol (Request.url (request_ this))))) ;;
    ret this
  else ret this.

(** [State::~State]. *)
Definition State_dtor (this : State) : M unit :=
  CHECK (is_null (conn_ this))
        "request state object still had a connection at cleanup?".

(** libevent's [evhttp_make_request]: on success the request is in flight
    and its callback will fire. *)
Definition evhttp_make_request (env : Env) (c : evhttp_connection_unique_ptr)
    (cmd : evhttp_cmd_type) (uri : string) : M Z :=
  call (evhttp_make_request_call c cmd uri) ;;
  (if evhttp_make_request_result env =? 0
   then set_in_flight true else ret tt) ;;
  ret (evhttp_make_request_result env).

(** libevent's [evhttp_request_new] allocates the request object; running
    out of memory is outside the model, so what it returns is not null and
    [CHECK_NOTNULL] passes. *)
Definition evhttp_request_new_not_null : bool := true.

(** The time left to the deadline as [MakeRequest] computes it: a 64-bit
    difference of tick counts. *)
Definition deadline_left (env : Env) (r : Request.t) : Z :=
  int64 (Request.deadline r - now_MakeRequest env).

(** [State::MakeRequest].  The check [CHECK(libevent::Base::OnEventThread())]
    that opens it and [RequestDone] concerns the calling thread; the steps
    below are run by the event base and by libevent only, so it is left out.
    The block under [#if 0] is not compiled.  Header names, header values
    and the URI reach libevent through [c_str()]; the body goes with its
    length. *)
Definition MakeRequest (env : Env) (this : State) : M State :=
  CHECK (is_null (conn_ this))
        "making a request while one is already outstanding?" ;;
  let now := now_MakeRequest env in
  let deadline_left := int64 (Request.deadline (request_ this) - now) in
  if deadline_left <=? 0
  then
    call (Task_Return (mkStatus error.DEADLINE_EXCEEDED
                         "URL fetch request exceeded deadline")) ;;
    ret this
  else
    call evhttp_request_new ;;
    CHECK evhttp_request_new_not_null
          "'evhttp_request_new(&RequestCallback, this)' Must be non NULL" ;;
    for_each (Request.headers (request_ this))
      (fun header =>
         call (evhttp_add_header (c_str (fst header)) (c_str (snd header)))) ;;
    body_error <-
      (if negb (Request.body (request_ this) =? "")%string
       then call (evbuffer_add_reference (Request.body (request_ this))) ;;
            ret (negb (evbuffer_add_reference_result env =? 0))
       else ret false) ;;
    if body_error
    then
      call (Task_Return (mkStatus error.INTERNAL
                           "could not set the request body")) ;;
      ret this
    else
      call (Pool_Get (Request.url (request_ this)) (pool_Get_result env)) ;;
      let this := mkState (request_ this) (Some (pool_Get_result env)) in
      let verb := VerbToCmdType (Request.verb (request_ this)) in
      rc <- evhttp_make_request env (conn_ this) verb
              (c_str (PathQuery (Request.url (request_ this)))) ;;
      if negb (rc =? 0)
      then
        call (Pool_Put (conn_ this)) ;;
        let this := mkState (request_ this) None in
        call (Task_Return (mkStatus error.INTERNAL
                             "evhttp_make_request error")) ;;
        ret this
      else ret this.

(** The loop of [RequestDone] that copies the input headers. *)
Definition copy_headers (input : list (string * string)) (h : Headers)
    : Headers :=
  fold_left (fun acc kv => Headers_insert kv acc) input h.

(** [State::RequestDone]; [None] is the null request. *)
Definition RequestDone (req : option evhttp_request) (this : State)
    : M State :=
  CHECK (negb (is_null (conn_ this))) "conn_" ;;
  call (Pool_Put (conn_ this)) ;;
  let this := mkState (request_ this) None in
  match req with
  | None =>
      call (Task_Return Status_UNKNOWN) ;;
      ret this
  | Some req =>
      resp <- get_response ;;
      set_response (Response.mk (response_code req)
                      (Response.headers resp) (Response.body resp)) ;;
      resp <- get_response ;;
      if Response.status_code resp <? 100
      then
        call (Task_Return (mkStatus error.FAILED_PRECONDITION
                             "connection refused")) ;;
        ret this
      else
        set_response (Response.mk (Response.status_code resp)
                        (copy_headers (input_headers req)
                           (Headers_clear (Response.headers resp)))
                        (Response.body resp)) ;;
        resp <- get_response ;;
        set_response (Response.mk (Response.status_code resp)
                        (Response.headers resp) (input_buffer req)) ;;
        call (Task_Return Status_OK) ;;
        ret this
  end.

(** [UrlFetcher::Fetch]: the state is built, handed to the task, and its
    [MakeRequest] queued on the event base. *)
Definition Fetch (env : Env) (req : Request.t) : M State :=
  call TaskHold_ctor ;;
  state <- State_ctor env req ;;
  call Task_DeleteWhenDone ;;
  call Base_Add_MakeRequest ;;
  call TaskHold_dtor ;;
  ret state.

(** [RequestCallback]: the callback registered with [evhttp_request_new]. *)
Definition RequestCallback (req : option evhttp_request) (userdata : State)
    : M State :=
  RequestDone req userdata.

(** libevent fires the callback once for a request in flight. *)
Definition libevent_dispatch (env : Env) (state : State) : M State :=
  pending <- get_in_flight ;;
  if pending
  then set_in_flight false ;; RequestCallback (callback_req env) state
  else ret state.

(** Whether the constructor has returned a status to the task: it does so
    exactly for a protocol other than http. *)
Definition rejected_by_ctor (req : Request.t) : bool :=
  negb (Protocol (Request.url req) =? "http")%string.

(** One whole transaction: [Fetch], then the event base runs the queued
    [MakeRequest], then libevent fires the callback of a submitted request.
    The task destroys the state, handed to it with [DeleteWhenDone], once
    it has a status and no hold: for an http request after the one status
    the steps return; for a request the constructor rejected as soon as
    [Fetch] lets go of its hold, before the queued step.  [Fetch] queues
    that step all the same, so it then runs on a destroyed state, which
    C++ leaves undefined: for such a request the model shows the calls the
    compiled steps make when they find the state as it was left, and
    nothing is claimed of the state itself. *)
Definition transaction (env : Env) (req : Request.t) : M State :=
  state <- Fetch env req ;;
  (if rejected_by_ctor req then State_dtor state else ret tt) ;;
  state <- MakeRequest env state ;;
  state <- libevent_dispatch env state ;;
  (if rejected_by_ctor req then ret tt else State_dtor state) ;;
  ret state.

(** The same steps with the destructor run last whatever the protocol; it
    gives the same result, the state holding no connection at either
    point, and is easier to follow step by step. *)
Definition transaction_dtor_last (env : Env) (req : Request.t) : M State :=
  state <- Fetch env req ;;
  state <- MakeRequest env state ;;
  state <- libevent_dispatch env state ;;
  State_dtor state ;;
  ret state.

(** ** Reading the log *)

Definition is_Pool_call (c : Call) : bool :=
  match c with
  | Pool_Get _ _ | Pool_Put _ => true
  | _ => false
  end.

Definition is_Pool_Get (c : Call) : bool :=
  match c with
  | Pool_Get _ _ => true
  | _ => false
  end.

Definition is_Pool_Put (c : Call) : bool :=
  match c with
  | Pool_Put _ => true
  | _ => false
  end.

Definition pool_calls (l : list Call) : list Call := filter is_Pool_call l.

(** The statuses passed to [Task::Return], in order. *)
Fixpoint returned (l : list Call) : list Status :=
  match l with
  | [] => []
  | Task_Return s :: l' => s :: returned l'
  | _ :: l' => returned l'
  end.

(** Follows the handle through a log, from the handle held before it to the
    handle held after it: a [Get] needs no handle held, a [Put] gives back
    exactly the handle held, and a [Return] happens with no handle held.
    [None] reports a log that breaks one of these. *)
Fixpoint handle_after (held : evhttp_connection_unique_ptr) (l : list Call)
    : option evhttp_connection_unique_ptr :=
  match l with
  | [] => Some held
  | Pool_Get _ c :: l' =>
      if is_null held then handle_after (Some c) l' else None
  | Pool_Put p :: l' =>
      match held, p with
      | Some c, Some c' =>
          if (c =? c')%N then handle_after None l' else None
      | _, _ => None
      end
  | Task_Return _ :: l' =>
      if is_null held then handle_after held l' else None
  | _ :: l' => handle_after held l'
  end.

(** A whole log keeps the discipline when it starts and ends with no handle
    held. *)
Definition handle_discipline (l : list Call) : bool :=
  match handle_after None l with
  | Some None => true
  | _ => false
  end.

(** The calls [MakeRequest] makes while building the wire request: one
    per header, name and value each as a C string. *)
Definition header_calls (h : Headers) : list Call :=
  map (fun header =>
         evhttp_add_header (c_str (fst header)) (c_str (snd header))) h.

(** The body is attached only when it is not empty. *)
Definition body_calls (body : string) : list Call :=
  if negb (body =? "")%string then [evbuffer_add_reference body] else [].

(** Calls that touch neither the pool nor the task's result. *)
Definition quiet (c : Call) : Prop :=
  match c with
  | Pool_Get _ _ | Pool_Put _ | Task_Return _ => False
  | _ => True
  end.

(** Unfolds the operations of the step monad. *)
Ltac mstep :=
  unfold bind, ret, call, CHECK, get_response, set_response,
    set_in_flight, get_in_flight, evhttp_request_new_not_null; simpl.

(** The status [MakeRequest] returns for a deadline already passed. *)
Definition DEADLINE_EXCEEDED_status : Status :=
  mkStatus error.DEADLINE_EXCEEDED "URL fetch request exceeded deadline".

(** What the constructor returns to the task, if anything. *)
Definition ctor_calls (request : Request.t) : list Call :=
  if (Protocol (Request.url request) =? "http")%string then []
  else [Task_Return
          (mkStatus error.INVALID_ARGUMENT
             ("UrlFetcher: unsupported protocol: "
              ++ Protocol (Request.url request)))].

(** ** Sample inputs *)

Definition example_http_url : URL := mkURL "http" "example.com" 80 "" "".

Definition example_https_url : URL := mkURL "https" "example.com" 443 "/" "".

(** A reply with status 204, one header and an empty body. *)
Definition reply_204 : evhttp_request :=
  mk_evhttp_request 204 [("X-Test", "1")] "".

(** A reply whose status code is below 100. *)
Definition reply_99 : evhttp_request :=
  mk_evhttp_request 99 [("X-Test", "1")] "refused".

(** Everything succeeds: the clock reads 1s and then 2s, the pool hands out
    connection 7, the submission succeeds and the reply is [reply]. *)
Definition env_replying (reply : option evhttp_request) : Env :=
  mkEnv default_timeout_seconds (seconds 1) (seconds 2) 0 7%N 0 reply.



(** The clock has passed the defaulted deadline when [MakeRequest] runs. *)
Definition env_late : Env :=
  mkEnv default_timeout_seconds (seconds 1) (seconds 100) 0 7%N 0
    (Some reply_204).

(** A state with a request in flight on connection 7. *)
Definition state_in_flight : State :=
  mkState (NormaliseRequest (env_replying None)
             (Request_of_URL example_http_url))
    (Some 7%N).

(** Two values sent under case variants of one header name. *)
Definition example_host_values : list (string * string) :=
  [("Host", "a"); ("HOST", "b")].

(** ** Debug output *)

Definition endl : string := String "010"%char EmptyString.

(** [operator<<(std::ostream&, evhttp_cmd_type)]: [PRINT_CMD] writes the
    name of the command. *)
Definition print_cmd (cmd : evhttp_cmd_type) : string :=
  match cmd with
  | EVHTTP_REQ_GET => "EVHTTP_REQ_GET"
  | EVHTTP_REQ_POST => "EVHTTP_REQ_POST"
  | EVHTTP_REQ_HEAD => "EVHTTP_REQ_HEAD"
  | EVHTTP_REQ_PUT => "EVHTTP_REQ_PUT"
  | EVHTTP_REQ_DELETE => "EVHTTP_REQ_DELETE"
  | EVHTTP_REQ_OPTIONS => "EVHTTP_REQ_OPTIONS"
  | EVHTTP_REQ_TRACE => "EVHTTP_REQ_TRACE"
  | EVHTTP_REQ_CONNECT => "EVHTTP_REQ_CONNECT"
  | EVHTTP_REQ_PATCH => "EVHTTP_REQ_PATCH"
  end.

(** [PrintHeaders]: one line per header, in the order of the list. *)
Fixpoint PrintHeaders (headers : list (string * string)) : string :=
  match headers with
  | [] => ""
  | ptr :: next => "  " ++ fst ptr ++ ": " ++ snd ptr ++ endl
                   ++ PrintHeaders next
  end.

(** An [int] written to a stream: its decimal digits, after a minus sign
    when it is negative. *)
Definition print_int (n : Z) : string := NilZero.string_of_int (Z.to_int n).

(** [operator<<(ostream&, const UrlFetcher::Response&)]; its loop writes
    the headers of the map as [PrintHeaders] writes those of libevent. *)
Definition print_Response (resp : Response.t) : string :=
  "status_code: " ++ print_int (Response.status_code resp) ++ endl
  ++ "headers {" ++ endl
  ++ PrintHeaders (Response.headers resp)
  ++ "}" ++ endl
  ++ "body: <<EOF" ++ endl
  ++ Response.body resp ++ "EOF" ++ endl.

(** ** The outcome of a transaction, stage by stage *)









(** The state holds a connection exactly while a callback is pending. *)
Definition coherent (st : State) (w : World) : Prop :=
  in_flight w = negb (is_null (conn_ st)).

(** Whether an entry is held under the name [k], case ignored. *)
Definition named (k : string) (kv : string * string) : bool :=
  equiv string ci_less k (fst kv).




(** The line [PrintHeaders] and the response dump write for one header. *)
Definition header_line (kv : string * string) : string :=
  "  " ++ fst kv ++ ": " ++ snd kv ++ endl.

(** A reply whose headers repeat a name in two spellings. *)
Definition reply_two_cookies : evhttp_request :=
  mk_evhttp_request 200
    [("Set-Cookie", "a=1"); ("Content-Type", "text/plain");
     ("set-cookie", "b=2")]
    "ok".

(** * Part II: properties *)

Local Open Scope list_scope.

(** ** Facts about the multimap *)

Section MultimapFacts.

Variables K V : Type.
Variable less : K -> K -> bool.
Implicit Types (a b c k : K) (e x kv : K * V) (m : list (K * V)).

Hypothesis less_irrefl : forall a, less a a = false.
Hypothesis less_trans :
  forall a b c, less a b = true -> less b c = true -> less a c = true.
Hypothesis nless_trans :
  forall a b c, less b a = false -> less c b = false -> less c a = false.

Lemma less_nless_trans a b c :
  less a b = true -> less c b = false -> less a c = true.
Proof using less_irrefl less_trans nless_trans.
  intros Hab Hcb.
  destruct (less a c) eqn:Hac; [reflexivity|].
  (* c <= b fails to combine with not (a < c) unless b <= a *)
  assert (Hba : less a b = false) by (apply (nless_trans b c a); assumption).
  congruence.
Qed.

Lemma nless_less_trans a b c :
  less b a = false -> less b c = true -> less a c = true.
Proof using less_irrefl less_trans nless_trans.
  intros Hba Hbc.
  destruct (less a c) eqn:Hac; [reflexivity|].
  assert (Hbc' : less b c = false) by (apply (nless_trans c a b); assumption).
  congruence.
Qed.

Lemma less_asym a b : less a b = true -> less b a = false.
Proof using less_irrefl less_trans.
  intros Hab. destruct (less b a) eqn:Hba; [|reflexivity].
  rewrite <- (less_irrefl a). symmetry. eapply less_trans; eassumption.
Qed.

Lemma equiv_less_l a b c : equiv K less a b = true -> less a c = less b c.
Proof using less_irrefl less_trans nless_trans.
  unfold equiv in *. intros H. apply andb_true_iff in H as [H1 H2].
  apply negb_true_iff in H1, H2.
  destruct (less a c) eqn:Hac, (less b c) eqn:Hbc; try reflexivity.
  - rewrite <- Hbc. symmetry. eapply nless_less_trans; eassumption.
  - rewrite <- Hac. eapply nless_less_trans; eassumption.
Qed.

Lemma equiv_less_r a b c : equiv K less a b = true -> less c a = less c b.
Proof using less_irrefl less_trans nless_trans.
  unfold equiv in *. intros H. apply andb_true_iff in H as [H1 H2].
  apply negb_true_iff in H1, H2.
  destruct (less c a) eqn:Hca, (less c b) eqn:Hcb; try reflexivity.
  - rewrite <- Hcb. symmetry. eapply less_nless_trans; eassumption.
  - rewrite <- Hca. eapply less_nless_trans; eassumption.
Qed.

(** In a sorted less map every entry after the head is not ordered before it. *)
Lemma sorted_tail e m : sorted less (e :: m) = true -> sorted less m = true.
Proof using Type.
  simpl. destruct m; [reflexivity|].
  intros H. apply andb_true_iff in H. tauto.
Qed.

Lemma sorted_head_le e m :
  sorted less (e :: m) = true -> forall x, In x m -> less (fst x) (fst e) = false.
Proof using less_irrefl less_trans nless_trans.
  revert e. induction m as [|e2 m IH]; intros e Hs x Hin; [destruct Hin|].
  simpl in Hs. apply andb_true_iff in Hs as [Hle Hs'].
  apply negb_true_iff in Hle.
  destruct Hin as [<-|Hin]; [assumption|].
  apply (nless_trans _ (fst e2)); [assumption|].
  apply IH; assumption.
Qed.

Lemma sorted_cons e m :
  sorted less m = true ->
  (forall x, In x m -> less (fst x) (fst e) = false) ->
  sorted less (e :: m) = true.
Proof using Type.
  intros Hs Hall. destruct m as [|e2 m]; [reflexivity|].
  change (negb (less (fst e2) (fst e)) && sorted less (e2 :: m) = true).
  rewrite Hs, (Hall e2 (or_introl eq_refl)). reflexivity.
Qed.

Lemma insert_In kv m x : In x (insert less kv m) <-> x = kv \/ In x m.
Proof using Type.
  induction m as [|e m IH]; simpl.
  - intuition auto.
  - destruct (less (fst kv) (fst e)); simpl; rewrite ?IH; intuition auto.
Qed.

Lemma insert_Permutation kv m : Permutation (insert less kv m) (kv :: m).
Proof using Type.
  induction m as [|e m IH]; simpl; [reflexivity|].
  destruct (less (fst kv) (fst e)); [reflexivity|].
  rewrite IH. apply perm_swap.
Qed.

Lemma insert_length kv m : List.length (insert less kv m) = S (List.length m).
Proof using Type.
  induction m as [|e m IH]; cbn; [reflexivity|].
  destruct (less (fst kv) (fst e)); cbn; rewrite ?IH; reflexivity.
Qed.

(** [insert] puts the entry right before the upper bound of its key. *)
Lemma insert_upper_bound kv m :
  exists before,
    m = before ++ upper_bound less (fst kv) m /\
    insert less kv m = before ++ kv :: upper_bound less (fst kv) m.
Proof.
  induction m as [|e m (before & Hm & Hi)]; simpl.
  - exists []. split; reflexivity.
  - destruct (less (fst kv) (fst e)).
    + exists []. split; reflexivity.
    + exists (e :: before). simpl. rewrite <- Hm, Hi. split; reflexivity.
Qed.

(** [insert] keeps the container invariant. *)
Lemma sorted_insert kv m : sorted less m = true -> sorted less (insert less kv m) = true.
Proof using less_irrefl less_trans nless_trans.
  induction m as [|e m IH]; intros Hs; [reflexivity|].
  simpl. destruct (less (fst kv) (fst e)) eqn:Hlt.
  - apply sorted_cons; [assumption|].
    intros x [<-|Hin].
    + apply less_asym; assumption.
    + apply less_asym. eapply less_nless_trans; [eassumption|].
      eapply sorted_head_le; eassumption.
  - apply sorted_cons.
    + apply IH. eapply sorted_tail; eassumption.
    + intros x Hin. apply insert_In in Hin as [->|Hin]; [assumption|].
      eapply sorted_head_le; eassumption.
Qed.

(** [find] is the head of the range of equivalent keys. *)
Lemma find_hd_equal_range k m :
  find less k m = hd_error (equal_range less k m).
Proof.
  unfold find, equal_range.
  destruct (lower_bound less k m) as [|e l]; [reflexivity|].
  simpl. destruct (less k (fst e)); reflexivity.
Qed.

Lemma equiv_nless k k' :
  equiv K less k k' = true -> less k k' = false /\ less k' k = false.
Proof.
  unfold equiv. intros H. apply andb_true_iff in H as [H1 H2].
  apply negb_true_iff in H1, H2. split; assumption.
Qed.

Lemma until_greater_insert k kv m :
  equiv K less k (fst kv) = true ->
  until_greater less k (insert less kv m) = until_greater less k m ++ [kv].
Proof.
  intros Heq. destruct (equiv_nless _ _ Heq) as [Hkk' Hkk].
  induction m as [|x m IH]; simpl.
  - rewrite Hkk'. reflexivity.
  - rewrite <- (equiv_less_l _ _ (fst x) Heq).
    destruct (less k (fst x)) eqn:Hkx; simpl.
    + rewrite Hkk', Hkx. reflexivity.
    + rewrite Hkx, IH. reflexivity.
Qed.

(** An entry inserted under a key equivalent to [k] becomes the last
    entry of the range of [k]; this needs no invariant on [m]. *)
Lemma equal_range_insert k kv m :
  equiv K less k (fst kv) = true ->
  equal_range less k (insert less kv m) = equal_range less k m ++ [kv].
Proof.
  intros Heq. unfold equal_range.
  destruct (equiv_nless _ _ Heq) as [Hkk' Hkk].
  induction m as [|e m IH]; simpl.
  - rewrite Hkk. simpl. rewrite Hkk'. reflexivity.
  - rewrite <- (equiv_less_l _ _ (fst e) Heq).
    destruct (less k (fst e)) eqn:Hke; simpl.
    + rewrite Hkk, (less_asym _ _ Hke). simpl. rewrite Hkk', Hke.
      reflexivity.
    + destruct (less (fst e) k) eqn:Hek; [exact IH|].
      simpl. rewrite Hke.
      rewrite (until_greater_insert k kv m Heq). reflexivity.
Qed.

Lemma find_insert k kv m :
  equiv K less k (fst kv) = true ->
  find less k (insert less kv m)
  = Some (match find less k m with Some e => e | None => kv end).
Proof.
  intros Heq. rewrite !find_hd_equal_range, (equal_range_insert _ _ _ Heq).
  destruct (equal_range less k m); reflexivity.
Qed.

Lemma until_greater_none k m :
  (forall x, In x m -> less k (fst x) = true) ->
  filter (fun x => equiv K less k (fst x)) m = [].
Proof.
  induction m as [|e m IH]; intros Hall; [reflexivity|].
  simpl. unfold equiv at 1. rewrite (Hall e (or_introl eq_refl)). simpl.
  apply IH. intros x Hx. apply Hall. right. exact Hx.
Qed.

Lemma until_greater_filter k m :
  sorted less m = true ->
  (forall x, In x m -> less (fst x) k = false) ->
  until_greater less k m = filter (fun x => equiv K less k (fst x)) m.
Proof.
  induction m as [|e m IH]; intros Hs Hge; [reflexivity|].
  simpl. unfold equiv at 1.
  destruct (less k (fst e)) eqn:Hke; simpl.
  - symmetry. apply until_greater_none. intros x Hx.
    eapply less_nless_trans; [exact Hke|].
    eapply sorted_head_le; eassumption.
  - rewrite (Hge e (or_introl eq_refl)). simpl. f_equal.
    apply IH; [eapply sorted_tail; eassumption|].
    intros x Hx. apply Hge. right. exact Hx.
Qed.

(** In a container that satisfies its invariant the range of [k] holds
    exactly the entries whose key is equivalent to [k], in their order. *)
Lemma equal_range_filter k m :
  sorted less m = true ->
  equal_range less k m = filter (fun x => equiv K less k (fst x)) m.
Proof.
  unfold equal_range. induction m as [|e m IH]; intros Hs; [reflexivity|].
  simpl. destruct (less (fst e) k) eqn:Hek.
  - unfold equiv at 1. rewrite Hek, andb_false_r.
    apply IH. eapply sorted_tail; eassumption.
  - change (until_greater less k (e :: m)
            = filter (fun x => equiv K less k (fst x)) (e :: m)).
    apply until_greater_filter; [assumption|].
    intros x [<-|Hx]; [assumption|].
    apply (nless_trans _ (fst e)); [assumption|].
    eapply sorted_head_le; eassumption.
Qed.

Lemma find_None_iff k m :
  sorted less m = true ->
  find less k m = None <->
  forall x, In x m -> equiv K less k (fst x) = false.
Proof.
  intros Hs. rewrite find_hd_equal_range, (equal_range_filter k m Hs).
  split.
  - intros Hhd x Hx. destruct (equiv K less k (fst x)) eqn:He; [|reflexivity].
    assert (Hin : In x (filter (fun x => equiv K less k (fst x)) m))
      by (apply filter_In; split; assumption).
    destruct (filter (fun x => equiv K less k (fst x)) m);
      [destruct Hin | discriminate].
  - intros Hall.
    destruct (filter (fun x => equiv K less k (fst x)) m) as [|e l] eqn:Hf;
      [reflexivity|].
    assert (Hin : In e (filter (fun x => equiv K less k (fst x)) m))
      by (rewrite Hf; left; reflexivity).
    apply filter_In in Hin as [Hin He].
    rewrite (Hall e Hin) in He. discriminate.
Qed.

Lemma lower_bound_head k m e l :
  lower_bound less k m = e :: l -> less (fst e) k = false /\ In e m.
Proof.
  induction m as [|x m IH]; simpl; [discriminate|].
  destruct (less (fst x) k) eqn:Hx.
  - intros H. destruct (IH H) as [H1 H2]. split; [exact H1 | right; exact H2].
  - intros H. injection H as <- _. split; [exact Hx | left; reflexivity].
Qed.

(** What [find] returns is an entry of the map under an equivalent key. *)
Lemma find_Some k m e :
  find less k m = Some e -> equiv K less k (fst e) = true /\ In e m.
Proof.
  unfold find. destruct (lower_bound less k m) as [|x l] eqn:Hlb;
    [discriminate|].
  destruct (less k (fst x)) eqn:Hkx; [discriminate|].
  intros H. injection H as <-.
  destruct (lower_bound_head _ _ _ _ Hlb) as [Hxk Hin].
  split; [|exact Hin]. unfold equiv. rewrite Hkx, Hxk. reflexivity.
Qed.

End MultimapFacts.

(** ** The order on header names *)

Lemma ascii_compare_refl (c : ascii) : Ascii.compare c c = Eq.
Proof. apply N.compare_refl. Qed.

Lemma string_compare_refl (s : string) : String.compare s s = Eq.
Proof.
  induction s as [|c s IH]; simpl; [reflexivity|].
  rewrite ascii_compare_refl. exact IH.
Qed.

Lemma ascii_compare_lt_trans (x y z : ascii) :
  Ascii.compare x y = Lt -> Ascii.compare y z = Lt -> Ascii.compare x z = Lt.
Proof.
  unfold Ascii.compare. rewrite !N.compare_lt_iff. apply N.lt_trans.
Qed.

Lemma string_compare_lt_trans (a : string) :
  forall b c,
    String.compare a b = Lt -> String.compare b c = Lt ->
    String.compare a c = Lt.
Proof.
  induction a as [|x a IH]; intros [|y b] [|z c]; simpl;
    try discriminate; try reflexivity.
  destruct (Ascii.compare x y) eqn:Hxy; try discriminate;
    destruct (Ascii.compare y z) eqn:Hyz; try discriminate; intros Hab Hbc.
  - apply Ascii.compare_eq_iff in Hxy, Hyz. subst.
    rewrite ascii_compare_refl.
    eapply IH; eassumption.
  - apply Ascii.compare_eq_iff in Hxy. subst. rewrite Hyz. reflexivity.
  - apply Ascii.compare_eq_iff in Hyz. subst. rewrite Hxy. reflexivity.
  - rewrite (ascii_compare_lt_trans _ _ _ Hxy Hyz). reflexivity.
Qed.

Lemma ci_less_irrefl (a : string) : ci_less a a = false.
Proof. unfold ci_less, String.ltb. rewrite string_compare_refl. reflexivity. Qed.

Lemma ci_less_trans (a b c : string) :
  ci_less a b = true -> ci_less b c = true -> ci_less a c = true.
Proof.
  unfold ci_less, String.ltb. intros Hab Hbc.
  destruct (String.compare (strlower a) (strlower b)) eqn:H1; try discriminate.
  destruct (String.compare (strlower b) (strlower c)) eqn:H2; try discriminate.
  rewrite (string_compare_lt_trans _ _ _ H1 H2). reflexivity.
Qed.

Lemma ci_nless_trans (a b c : string) :
  ci_less b a = false -> ci_less c b = false -> ci_less c a = false.
Proof.
  unfold ci_less, String.ltb. intros Hba Hcb.
  destruct (String.compare (strlower c) (strlower a)) eqn:Hca;
    try reflexivity.
  exfalso.
  destruct (String.compare (strlower b) (strlower a)) eqn:H1;
    try discriminate.
  - apply String.compare_eq_iff in H1. rewrite H1, Hca in Hcb. discriminate.
  - rewrite String.compare_antisym in H1.
    destruct (String.compare (strlower a) (strlower b)) eqn:H2;
      try discriminate.
    rewrite (string_compare_lt_trans _ _ _ Hca H2) in Hcb. discriminate.
Qed.

(** Names that differ only in case are equivalent keys. *)
Lemma same_ignoring_case_equiv (a b : string) :
  same_ignoring_case a b -> equiv string ci_less a b = true.
Proof.
  unfold same_ignoring_case, equiv, ci_less, String.ltb. intros ->.
  rewrite string_compare_refl. reflexivity.
Qed.

Lemma equiv_same_ignoring_case (a b : string) :
  equiv string ci_less a b = true -> same_ignoring_case a b.
Proof.
  unfold same_ignoring_case, equiv, ci_less, String.ltb. intros H.
  apply String.compare_eq_iff.
  destruct (String.compare (strlower a) (strlower b)) eqn:H1;
    [reflexivity | discriminate |].
  rewrite String.compare_antisym, H1 in H. discriminate.
Qed.

Lemma Headers_sorted_insert (kv : string * string) (h : Headers) :
  Headers_sorted h = true -> Headers_sorted (Headers_insert kv h) = true.
Proof.
  apply sorted_insert;
    [exact ci_less_irrefl | exact ci_less_trans | exact ci_nless_trans].
Qed.

Lemma Headers_equal_range_insert (k : string) (kv : string * string)
    (h : Headers) :
  same_ignoring_case k (fst kv) ->
  Headers_equal_range k (Headers_insert kv h)
  = Headers_equal_range k h ++ [kv].
Proof.
  intros Hc. apply equal_range_insert;
    [exact ci_less_irrefl | exact ci_less_trans | exact ci_nless_trans|].
  apply same_ignoring_case_equiv. exact Hc.
Qed.

Lemma Headers_find_insert (k : string) (kv : string * string) (h : Headers) :
  same_ignoring_case k (fst kv) ->
  Headers_find k (Headers_insert kv h)
  = Some (match Headers_find k h with Some e => e | None => kv end).
Proof.
  intros Hc. apply find_insert;
    [exact ci_less_irrefl | exact ci_less_trans | exact ci_nless_trans|].
  apply same_ignoring_case_equiv. exact Hc.
Qed.

(** In a well-formed header map, [find] fails exactly when no entry has a
    name equal to [k] up to case. *)
Lemma Headers_find_None_iff (k : string) (h : Headers) :
  Headers_sorted h = true ->
  Headers_find k h = None <->
  forall x, In x h -> ~ same_ignoring_case k (fst x).
Proof.
  intros Hs. unfold Headers_find.
  rewrite (find_None_iff _ _ ci_less ci_less_irrefl ci_less_trans
             ci_nless_trans k h Hs).
  split; intros H x Hx.
  - intros Hc. apply same_ignoring_case_equiv in Hc.
    rewrite (H x Hx) in Hc. discriminate.
  - destruct (equiv string ci_less k (fst x)) eqn:He; [|reflexivity].
    apply equiv_same_ignoring_case in He. destruct (H x Hx He).
Qed.

(** Every header map built by insertions from the empty one is well
    formed, and holds every inserted entry. *)
Lemma copy_headers_sorted (input : list (string * string)) (h : Headers) :
  Headers_sorted h = true -> Headers_sorted (copy_headers input h) = true.
Proof.
  revert h. induction input as [|kv input IH]; intros h Hs; [exact Hs|].
  simpl. apply IH. apply Headers_sorted_insert. exact Hs.
Qed.

Lemma copy_headers_Permutation (input : list (string * string)) (h : Headers) :
  Permutation (copy_headers input h) (input ++ h).
Proof.
  revert h. induction input as [|kv input IH]; intros h; [reflexivity|].
  simpl. rewrite IH. unfold Headers_insert.
  rewrite (insert_Permutation _ _ ci_less kv h).
  symmetry. apply Permutation_middle.
Qed.

(** ** Request normalisation *)

Lemma NormaliseRequest_deadline (env : Env) (req : Request.t) :
  Request.deadline (NormaliseRequest env req)
  = if Request.deadline req =? 0
    then now_NormaliseRequest env
         + seconds (FLAGS_url_fetcher_default_timeout_seconds env)
    else Request.deadline req.
Proof. reflexivity. Qed.

Lemma NormaliseRequest_path_nonempty (env : Env) (req : Request.t) :
  Path (Request.url (NormaliseRequest env req)) <> "".
Proof.
  unfold NormaliseRequest. simpl.
  destruct (Path (Request.url req) =? "")%string eqn:Hp; simpl.
  - discriminate.
  - apply String.eqb_neq. exact Hp.
Qed.

Lemma NormaliseRequest_has_Host (env : Env) (req : Request.t) :
  exists e, Headers_find "Host" (Request.headers (NormaliseRequest env req))
            = Some e.
Proof.
  unfold NormaliseRequest. simpl.
  destruct (Headers_find "Host" (Request.headers req)) as [e|] eqn:Hf.
  - exists e. exact Hf.
  - rewrite Headers_find_insert by reflexivity. rewrite Hf. eexists. reflexivity.
Qed.

(** Normalising twice changes nothing as soon as the deadline of the
    normalised request is set; the second call may see another clock. *)
Lemma NormaliseRequest_idempotent_when_set (env env' : Env) (req : Request.t) :
  Request.deadline (NormaliseRequest env req) <> 0 ->
  NormaliseRequest env' (NormaliseRequest env req) = NormaliseRequest env req.
Proof.
  intros Hd.
  destruct (NormaliseRequest_has_Host env req) as [e He].
  pose proof (NormaliseRequest_path_nonempty env req) as Hp.
  destruct (NormaliseRequest env req) as [vb u hs bd dl]. simpl in *.
  unfold NormaliseRequest. simpl.
  apply Z.eqb_neq in Hd. apply String.eqb_neq in Hp.
  rewrite Hd, Hp, He. reflexivity.
Qed.

(** C4. Normalisation replaces a zero deadline by the clock reading plus
    the configured timeout (60 seconds by default), an empty path by "/",
    and inserts Host: url.host when the case-insensitive lookup of "Host"
    finds nothing; in every other case the field is the one given, and the
    verb, the body and the other parts of the URL are never touched. *)
Theorem C4_normalisation (env : Env) (req : Request.t) :
  let r := NormaliseRequest env req in
  (Request.deadline req = 0 ->
     Request.deadline r
     = now_NormaliseRequest env
       + seconds (FLAGS_url_fetcher_default_timeout_seconds env)) /\
  (Request.deadline req = 0 ->
     FLAGS_url_fetcher_default_timeout_seconds env = default_timeout_seconds ->
     Request.deadline r = now_NormaliseRequest env + 60 * ticks_per_second) /\
  (Request.deadline req <> 0 -> Request.deadline r = Request.deadline req) /\
  (Path (Request.url req) = "" -> Path (Request.url r) = "/") /\
  (Path (Request.url req) <> "" -> Request.url r = Request.url req) /\
  (Protocol (Request.url r) = Protocol (Request.url req) /\
   Host (Request.url r) = Host (Request.url req) /\
   Port (Request.url r) = Port (Request.url req) /\
   Query (Request.url r) = Query (Request.url req)) /\
  (Headers_find "Host" (Request.headers req) = None ->
     Request.headers r
     = Headers_insert ("Host", Host (Request.url req)) (Request.headers req)) /\
  (Headers_find "Host" (Request.headers req) <> None ->
     Request.headers r = Request.headers req) /\
  Request.verb r = Request.verb req /\
  Request.body r = Request.body req.
Proof.
  unfold NormaliseRequest. cbn zeta. simpl.
  repeat split.
  - intros ->. reflexivity.
  - intros -> ->. reflexivity.
  - intros Hd. apply Z.eqb_neq in Hd. rewrite Hd. reflexivity.
  - intros ->. reflexivity.
  - intros Hp. apply String.eqb_neq in Hp. rewrite Hp. reflexivity.
  - destruct (Path (Request.url req) =? "")%string; reflexivity.
  - destruct (Path (Request.url req) =? "")%string; reflexivity.
  - destruct (Path (Request.url req) =? "")%string; reflexivity.
  - destruct (Path (Request.url req) =? "")%string; reflexivity.
  - intros ->. destruct (Path (Request.url req) =? "")%string; reflexivity.
  - intros Hf. destruct (Headers_find "Host" (Request.headers req));
      [reflexivity | contradiction].
Qed.

(** C10. Normalisation is idempotent: with a clock that is not before its
    epoch and a positive configured timeout, normalising the output of
    [NormaliseRequest] again, at whatever later clock reading, returns it
    unchanged, because the deadline is then set, the path is not empty and
    the lookup of "Host" succeeds. *)
Theorem C10_normalisation_idempotent (env env' : Env) (req : Request.t) :
  0 <= now_NormaliseRequest env ->
  0 < FLAGS_url_fetcher_default_timeout_seconds env ->
  NormaliseRequest env' (NormaliseRequest env req) = NormaliseRequest env req.
Proof.
  intros Hnow Hflag. apply NormaliseRequest_idempotent_when_set.
  rewrite NormaliseRequest_deadline.
  destruct (Request.deadline req =? 0) eqn:Hd.
  - unfold seconds, ticks_per_second. lia.
  - apply Z.eqb_neq. exact Hd.
Qed.

(** ** Reading logs piecewise *)

Lemma header_calls_quiet (h : Headers) : Forall quiet (header_calls h).
Proof.
  unfold header_calls. induction h as [|x h IH]; simpl; constructor;
    [exact I | exact IH].
Qed.

Lemma handle_after_app (l1 l2 : list Call) :
  forall held,
    handle_after held (l1 ++ l2)
    = match handle_after held l1 with
      | Some held' => handle_after held' l2
      | None => None
      end.
Proof.
  induction l1 as [|c l1 IH]; intros held; [reflexivity|].
  destruct c; simpl; try apply IH.
  - destruct (is_null held); [apply IH | reflexivity].
  - destruct (is_null held); [apply IH | reflexivity].
  - destruct held as [c0|], c as [c'|]; try reflexivity.
    destruct (c0 =? c')%N; [apply IH | reflexivity].
Qed.

Lemma handle_after_quiet (l : list Call) :
  Forall quiet l -> forall held, handle_after held l = Some held.
Proof.
  induction 1 as [|c l Hc _ IH]; intros held; [reflexivity|].
  destruct c; simpl in *; try contradiction; apply IH.
Qed.

Lemma pool_calls_app (l1 l2 : list Call) :
  pool_calls (l1 ++ l2) = pool_calls l1 ++ pool_calls l2.
Proof. apply filter_app. Qed.

Lemma pool_calls_quiet (l : list Call) : Forall quiet l -> pool_calls l = [].
Proof.
  induction 1 as [|c l Hc _ IH]; [reflexivity|].
  destruct c; simpl in *; try contradiction; exact IH.
Qed.

Lemma returned_app (l1 l2 : list Call) :
  returned (l1 ++ l2) = returned l1 ++ returned l2.
Proof.
  induction l1 as [|c l1 IH]; [reflexivity|].
  destruct c; simpl; rewrite ?IH; reflexivity.
Qed.

Lemma returned_quiet (l : list Call) : Forall quiet l -> returned l = [].
Proof.
  induction 1 as [|c l Hc _ IH]; [reflexivity|].
  destruct c; simpl in *; try contradiction; exact IH.
Qed.

(** ** The steps, path by path *)

Lemma for_each_call {A} (f : A -> Call) (l : list A) (w : World) :
  for_each l (fun x => call (f x)) w
  = Ok tt (mkWorld (response w) (log w ++ map f l) (in_flight w)).
Proof.
  revert w. induction l as [|x l IH]; intros [r lg fl]; simpl.
  - rewrite app_nil_r. reflexivity.
  - unfold bind, call at 1. simpl. rewrite IH. simpl.
    rewrite <- app_assoc. reflexivity.
Qed.

Lemma for_each_call_unfolded {A} (f : A -> Call) (l : list A) (w : World) :
  for_each l
    (fun x w => Ok tt (mkWorld (response w) (log w ++ [f x]) (in_flight w))) w
  = Ok tt (mkWorld (response w) (log w ++ map f l) (in_flight w)).
Proof. exact (for_each_call f l w). Qed.

(** The constructor either accepts the protocol silently or returns
    INVALID_ARGUMENT; the state it builds holds no connection. *)
Lemma State_ctor_http (env : Env) (request : Request.t) (w : World) :
  Protocol (Request.url request) = "http" ->
  State_ctor env request w = Ok (mkState (NormaliseRequest env request) None) w.
Proof.
  intros Hp. unfold State_ctor. simpl.
  replace (Protocol (if (Path (Request.url request) =? "")%string
                     then SetPath (Request.url request) "/"
                     else Request.url request))
    with (Protocol (Request.url request))
    by (destruct (Path (Request.url request) =? "")%string; reflexivity).
  rewrite Hp. reflexivity.
Qed.

Lemma State_ctor_unsupported (env : Env) (request : Request.t) (w : World) :
  Protocol (Request.url request) <> "http" ->
  State_ctor env request w
  = Ok (mkState (NormaliseRequest env request) None)
       (mkWorld (response w)
          (log w ++ [Task_Return
                       (mkStatus error.INVALID_ARGUMENT
                          ("UrlFetcher: unsupported protocol: "
                           ++ Protocol (Request.url request))%string)])
          (in_flight w)).
Proof.
  intros Hp. unfold State_ctor. simpl.
  replace (Protocol (if (Path (Request.url request) =? "")%string
                     then SetPath (Request.url request) "/"
                     else Request.url request))
    with (Protocol (Request.url request))
    by (destruct (Path (Request.url request) =? "")%string; reflexivity).
  apply String.eqb_neq in Hp. rewrite Hp. reflexivity.
Qed.



Lemma MakeRequest_deadline (env : Env) (this : State) (w : World) :
  conn_ this = None ->
  deadline_left env (request_ this) <= 0 ->
  MakeRequest env this w
  = Ok this (mkWorld (response w)
               (log w ++ [Task_Return DEADLINE_EXCEEDED_status])
               (in_flight w)).
Proof.
  intros Hc Hd. unfold MakeRequest. rewrite Hc.
  fold (deadline_left env (request_ this)). mstep.
  replace (deadline_left env (request_ this) <=? 0)
    with true by (symmetry; apply Z.leb_le; exact Hd).
  reflexivity.
Qed.

(** [MakeRequest], the body cannot be attached: no connection is taken. *)
Lemma MakeRequest_body_error (env : Env) (this : State) (w : World) :
  conn_ this = None ->
  0 < deadline_left env (request_ this) ->
  Request.body (request_ this) <> "" ->
  evbuffer_add_reference_result env <> 0 ->
  MakeRequest env this w
  = Ok this
       (mkWorld (response w)
          (log w ++ evhttp_request_new
             :: header_calls (Request.headers (request_ this))
             ++ [evbuffer_add_reference (Request.body (request_ this));
                 Task_Return (mkStatus error.INTERNAL
                                "could not set the request body")])
          (in_flight w)).
Proof.
  intros Hc Hd Hb Hr. unfold MakeRequest. rewrite Hc.
  fold (deadline_left env (request_ this)). mstep.
  replace (deadline_left env (request_ this) <=? 0)
    with false by (symmetry; apply Z.leb_gt; exact Hd).
  rewrite (for_each_call_unfolded
             (fun header : string * string =>
                evhttp_add_header (c_str (fst header)) (c_str (snd header)))).
  simpl.
  apply String.eqb_neq in Hb. rewrite Hb. simpl.
  apply Z.eqb_neq in Hr. rewrite Hr. simpl.
  unfold header_calls. rewrite <- !app_assoc. reflexivity.
Qed.

(** [MakeRequest], the submission fails: the connection just taken is put
    back before the task returns. *)
Lemma MakeRequest_submit_error (env : Env) (this : State) (w : World) :
  conn_ this = None ->
  0 < deadline_left env (request_ this) ->
  Request.body (request_ this) = "" \/ evbuffer_add_reference_result env = 0 ->
  evhttp_make_request_result env <> 0 ->
  MakeRequest env this w
  = Ok this
       (mkWorld (response w)
          (log w ++ evhttp_request_new
             :: header_calls (Request.headers (request_ this))
             ++ body_calls (Request.body (request_ this))
             ++ [Pool_Get (Request.url (request_ this)) (pool_Get_result env);
                 evhttp_make_request_call (Some (pool_Get_result env))
                   (VerbToCmdType (Request.verb (request_ this)))
                   (c_str (PathQuery (Request.url (request_ this))));
                 Pool_Put (Some (pool_Get_result env));
                 Task_Return (mkStatus error.INTERNAL
                                "evhttp_make_request error")])
          (in_flight w)).
Proof.
  intros Hc Hd Hb Hr. destruct this as [rq cn]. simpl in *. subst cn.
  unfold MakeRequest, evhttp_make_request. mstep.
  fold (deadline_left env rq).
  replace (deadline_left env rq <=? 0)
    with false by (symmetry; apply Z.leb_gt; exact Hd).
  rewrite (for_each_call_unfolded
             (fun header : string * string =>
                evhttp_add_header (c_str (fst header)) (c_str (snd header)))).
  simpl.
  apply Z.eqb_neq in Hr.
  unfold body_calls, header_calls.
  destruct (Request.body rq =? "")%string eqn:He; simpl.
  - rewrite !Hr. simpl. rewrite ?Hr. simpl.
    rewrite <- !app_assoc. reflexivity.
  - destruct Hb as [Hb|Hb]; [apply String.eqb_neq in He; contradiction|].
    rewrite Hb. simpl. rewrite !Hr. simpl. rewrite ?Hr. simpl.
    rewrite <- !app_assoc. reflexivity.
Qed.

(** [MakeRequest], the request is submitted: the state keeps the
    connection and the callback is pending. *)
Lemma MakeRequest_submitted (env : Env) (this : State) (w : World) :
  conn_ this = None ->
  0 < deadline_left env (request_ this) ->
  Request.body (request_ this) = "" \/ evbuffer_add_reference_result env = 0 ->
  evhttp_make_request_result env = 0 ->
  MakeRequest env this w
  = Ok (mkState (request_ this) (Some (pool_Get_result env)))
       (mkWorld (response w)
          (log w ++ evhttp_request_new
             :: header_calls (Request.headers (request_ this))
             ++ body_calls (Request.body (request_ this))
             ++ [Pool_Get (Request.url (request_ this)) (pool_Get_result env);
                 evhttp_make_request_call (Some (pool_Get_result env))
                   (VerbToCmdType (Request.verb (request_ this)))
                   (c_str (PathQuery (Request.url (request_ this))))])
          true).
Proof.
  intros Hc Hd Hb Hr. destruct this as [rq cn]. simpl in *. subst cn.
  unfold MakeRequest, evhttp_make_request. mstep.
  fold (deadline_left env rq).
  replace (deadline_left env rq <=? 0)
    with false by (symmetry; apply Z.leb_gt; exact Hd).
  rewrite (for_each_call_unfolded
             (fun header : string * string =>
                evhttp_add_header (c_str (fst header)) (c_str (snd header)))).
  simpl.
  unfold body_calls, header_calls.
  destruct (Request.body rq =? "")%string eqn:He; simpl.
  - rewrite !Hr. simpl. rewrite <- !app_assoc. reflexivity.
  - destruct Hb as [Hb|Hb]; [apply String.eqb_neq in He; contradiction|].
    rewrite Hb. simpl. rewrite !Hr. simpl.
    rewrite <- !app_assoc. reflexivity.
Qed.

(** [RequestDone] with the null request. *)
Lemma RequestDone_null (this : State) (w : World) (c : connection) :
  conn_ this = Some c ->
  RequestDone None this w
  = Ok (mkState (request_ this) None)
       (mkWorld (response w)
          (log w ++ [Pool_Put (Some c); Task_Return Status_UNKNOWN])
          (in_flight w)).
Proof.
  intros Hc. unfold RequestDone. rewrite Hc. mstep.
  rewrite <- app_assoc. reflexivity.
Qed.

(** [RequestDone] with a status code below 100: only [status_code] of the
    response is written. *)
Lemma RequestDone_low (req : evhttp_request) (this : State) (w : World)
    (c : connection) :
  conn_ this = Some c ->
  response_code req < 100 ->
  RequestDone (Some req) this w
  = Ok (mkState (request_ this) None)
       (mkWorld
          (Response.mk (response_code req) (Response.headers (response w))
             (Response.body (response w)))
          (log w ++ [Pool_Put (Some c);
                     Task_Return (mkStatus error.FAILED_PRECONDITION
                                    "connection refused")])
          (in_flight w)).
Proof.
  intros Hc Hlt. unfold RequestDone. rewrite Hc. mstep.
  apply Z.ltb_lt in Hlt. rewrite Hlt. simpl. rewrite <- app_assoc. reflexivity.
Qed.

(** [RequestDone] with a status code of at least 100: the whole response
    is written and the task returns OK. *)
Lemma RequestDone_ok (req : evhttp_request) (this : State) (w : World)
    (c : connection) :
  conn_ this = Some c ->
  100 <= response_code req ->
  RequestDone (Some req) this w
  = Ok (mkState (request_ this) None)
       (mkWorld
          (Response.mk (response_code req)
             (copy_headers (input_headers req) []) (input_buffer req))
          (log w ++ [Pool_Put (Some c); Task_Return Status_OK])
          (in_flight w)).
Proof.
  intros Hc Hge. unfold RequestDone. rewrite Hc. mstep.
  replace (response_code req <? 100) with false
    by (symmetry; apply Z.ltb_ge; exact Hge).
  simpl. rewrite <- app_assoc. reflexivity.
Qed.

(** Whatever the callback carries, [RequestDone] puts the connection back
    and then returns exactly one status. *)
Lemma RequestDone_cases (req : option evhttp_request) (this : State)
    (w : World) (c : connection) :
  conn_ this = Some c ->
  exists resp' s,
    RequestDone req this w
    = Ok (mkState (request_ this) None)
         (mkWorld resp' (log w ++ [Pool_Put (Some c); Task_Return s])
            (in_flight w)).
Proof.
  intros Hc. destruct req as [req|].
  - destruct (Z.lt_ge_cases (response_code req) 100) as [Hlt|Hge].
    + do 2 eexists. apply RequestDone_low; assumption.
    + do 2 eexists. apply RequestDone_ok; assumption.
  - do 2 eexists. apply RequestDone_null; assumption.
Qed.

Lemma body_calls_quiet (body : string) : Forall quiet (body_calls body).
Proof.
  unfold body_calls. destruct (negb (body =? "")%string);
    repeat constructor.
Qed.

Ltac read_log :=
  simpl;
  repeat first
    [ rewrite handle_after_app
    | rewrite pool_calls_app
    | rewrite returned_app
    | rewrite (handle_after_quiet _ (header_calls_quiet _))
    | rewrite (handle_after_quiet _ (body_calls_quiet _))
    | rewrite (pool_calls_quiet _ (header_calls_quiet _))
    | rewrite (pool_calls_quiet _ (body_calls_quiet _))
    | rewrite (returned_quiet _ (header_calls_quiet _))
    | rewrite (returned_quiet _ (body_calls_quiet _))
    | rewrite N.eqb_refl
    | progress simpl ].

(** [MakeRequest] from a state that holds no connection: either it ends
    the transaction with one failure status, holding nothing, or it leaves
    the request in flight, holding the connection the pool gave. *)
Lemma MakeRequest_cases (env : Env) (this : State) (w : World) :
  conn_ this = None ->
  (exists l s,
      MakeRequest env this w
      = Ok this (mkWorld (response w) (log w ++ l) (in_flight w)) /\
      handle_after None l = Some None /\
      (pool_calls l = [] \/
       pool_calls l = [Pool_Get (Request.url (request_ this))
                         (pool_Get_result env);
                       Pool_Put (Some (pool_Get_result env))]) /\
      returned l = [s] /\ error_code s <> error.OK)
  \/
  (exists l,
      MakeRequest env this w
      = Ok (mkState (request_ this) (Some (pool_Get_result env)))
           (mkWorld (response w) (log w ++ l) true) /\
      handle_after None l = Some (Some (pool_Get_result env)) /\
      pool_calls l = [Pool_Get (Request.url (request_ this))
                        (pool_Get_result env)] /\
      returned l = []).
Proof.
  intros Hc.
  destruct (Z.le_gt_cases (deadline_left env (request_ this)) 0) as [Hd|Hd].
  { left. do 2 eexists. split; [apply MakeRequest_deadline; assumption|].
    read_log. repeat split; try (left; reflexivity). discriminate. }
  assert (Hbody : (Request.body (request_ this) <> ""
                   /\ evbuffer_add_reference_result env <> 0)
                  \/ (Request.body (request_ this) = ""
                      \/ evbuffer_add_reference_result env = 0)).
  { destruct (string_dec (Request.body (request_ this)) "");
      destruct (Z.eq_dec (evbuffer_add_reference_result env) 0); tauto. }
  destruct Hbody as [[Hb Hr]|Hb].
  { left. do 2 eexists. split; [apply MakeRequest_body_error; assumption|].
    read_log. repeat split; try (left; reflexivity). discriminate. }
  destruct (Z.eq_dec (evhttp_make_request_result env) 0) as [Hs|Hs].
  - right. eexists. split; [apply MakeRequest_submitted; assumption|].
    read_log. repeat split.
  - left. do 2 eexists. split; [apply MakeRequest_submit_error; assumption|].
    read_log. repeat split; try (right; reflexivity). discriminate.
Qed.

Lemma ctor_calls_quiet_pool (request : Request.t) :
  pool_calls (ctor_calls request) = [] /\
  handle_after None (ctor_calls request) = Some None.
Proof.
  unfold ctor_calls.
  destruct (Protocol (Request.url request) =? "http")%string; split;
    reflexivity.
Qed.

(** [Fetch] builds the state, which holds no connection, and makes only
    calls on the task and the event base. *)
Lemma Fetch_log (env : Env) (req : Request.t) (w : World) :
  Fetch env req w
  = Ok (mkState (NormaliseRequest env req) None)
       (mkWorld (response w)
          (log w ++ TaskHold_ctor
             :: ctor_calls req
             ++ [Task_DeleteWhenDone; Base_Add_MakeRequest; TaskHold_dtor])
          (in_flight w)).
Proof.
  unfold Fetch, ctor_calls. unfold bind at 1 2. simpl.
  destruct (string_dec (Protocol (Request.url req)) "http") as [Hp|Hp].
  - rewrite (State_ctor_http env req _ Hp).
    rewrite Hp. mstep. rewrite <- !app_assoc. reflexivity.
  - rewrite (State_ctor_unsupported env req _ Hp).
    apply String.eqb_neq in Hp. rewrite Hp. mstep.
    rewrite <- !app_assoc. reflexivity.
Qed.

(** After [MakeRequest] and the callback that may be pending the state
    holds no connection. *)
Lemma dispatch_leaves_no_connection (env : Env) (this st st2 : State)
    (w w' w2 : World) :
  conn_ this = None ->
  MakeRequest env this w = Ok st w' ->
  libevent_dispatch env st w' = Ok st2 w2 ->
  conn_ st2 = None.
Proof.
  intros Hc Hm Hd.
  destruct (MakeRequest_cases env this w Hc)
    as [(l & s & Heq & _) | (l & Heq & _)];
    rewrite Heq in Hm; injection Hm as <- <-.
  - revert Hd. unfold libevent_dispatch, RequestCallback, RequestDone.
    rewrite Hc. mstep. destruct (in_flight w); [discriminate|].
    intros H. injection H as <- _. exact Hc.
  - revert Hd. unfold libevent_dispatch, RequestCallback. mstep.
    destruct (RequestDone_cases (callback_req env)
                (mkState (request_ this) (Some (pool_Get_result env)))
                (mkWorld (response w) (log w ++ l) false)
                (pool_Get_result env) eq_refl) as (resp' & s & Hrd).
    rewrite Hrd. intros H. injection H as <- _. reflexivity.
Qed.

(** The destructor passes its check whether the task runs it as soon as
    [Fetch] lets go of its hold or after the last step. *)
Lemma transaction_dtor_last_eq (env : Env) (req : Request.t) (w : World) :
  transaction env req w = transaction_dtor_last env req w.
Proof.
  unfold transaction, transaction_dtor_last, bind. rewrite Fetch_log.
  destruct (rejected_by_ctor req).
  - change (State_dtor (mkState (NormaliseRequest env req) None)
              (mkWorld (response w)
                 (log w ++ TaskHold_ctor
                    :: ctor_calls req
                    ++ [Task_DeleteWhenDone; Base_Add_MakeRequest;
                        TaskHold_dtor])
                 (in_flight w)))
      with (@Ok unit tt
              (mkWorld (response w)
                 (log w ++ TaskHold_ctor
                    :: ctor_calls req
                    ++ [Task_DeleteWhenDone; Base_Add_MakeRequest;
                        TaskHold_dtor])
                 (in_flight w))).
    cbv beta iota.
    destruct (MakeRequest env (mkState (NormaliseRequest env req) None) _)
      as [st w'|msg w'] eqn:Hm; [|reflexivity].
    destruct (libevent_dispatch env st w') as [st2 w2|msg w2] eqn:Hd;
      [|reflexivity].
    unfold State_dtor, CHECK, ret.
    rewrite (dispatch_leaves_no_connection env
               (mkState (NormaliseRequest env req) None) _ _ _ _ _
               eq_refl Hm Hd).
    reflexivity.
  - reflexivity.
Qed.

(** The shape of every transaction: it ends holding nothing, with no request
    in flight; the pool saw nothing or one [Get] followed by the [Put] of the
    same handle; and after whatever the constructor returned, exactly one
    more status is returned. *)
Lemma transaction_summary (env : Env) (req : Request.t) (resp : Response.t) :
  exists st w s,
    transaction env req (init_world resp) = Ok st w /\
    conn_ st = None /\
    in_flight w = false /\
    handle_after None (log w) = Some None /\
    (pool_calls (log w) = [] \/
     pool_calls (log w)
     = [Pool_Get (Request.url (NormaliseRequest env req)) (pool_Get_result env);
        Pool_Put (Some (pool_Get_result env))]) /\
    returned (log w) = returned (ctor_calls req) ++ [s].
Proof.
  rewrite transaction_dtor_last_eq. unfold transaction_dtor_last.
  unfold bind at 1. rewrite Fetch_log. simpl.
  set (this := mkState (NormaliseRequest env req) None).
  set (w1 := mkWorld _ _ _).
  destruct (ctor_calls_quiet_pool req) as [Hcp Hch].
  destruct (MakeRequest_cases env this w1 eq_refl)
    as [(l & s & Heq & Hh & Hp & Hr & _) | (l & Heq & Hh & Hp & Hr)].
  - exists this, (mkWorld resp (log w1 ++ l) false), s.
    unfold bind. rewrite Heq. subst w1. simpl.
    unfold libevent_dispatch, State_dtor. mstep.
    split; [reflexivity|]. split; [reflexivity|]. split; [reflexivity|].
    split; [|split].
    + rewrite handle_after_app. simpl.
      rewrite handle_after_app, Hch. simpl.
      exact Hh.
    + rewrite pool_calls_app. simpl. rewrite pool_calls_app, Hcp. simpl.
      exact Hp.
    + rewrite returned_app. simpl. rewrite returned_app. simpl.
      rewrite Hr, app_nil_r. reflexivity.
  - unfold bind. rewrite Heq. subst w1. simpl.
    unfold libevent_dispatch, RequestCallback. mstep.
    set (w2 := mkWorld _ _ _).
    destruct (RequestDone_cases (callback_req env)
                (mkState (NormaliseRequest env req)
                   (Some (pool_Get_result env)))
                w2 (pool_Get_result env) eq_refl) as (resp' & s & Hrd).
    simpl in Hrd. rewrite Hrd. subst w2. simpl.
    eexists _, _, s.
    split; [reflexivity|]. simpl.
    split; [reflexivity|]. split; [reflexivity|].
    split; [|split].
    + rewrite !handle_after_app, Hch. simpl.
      rewrite Hh. simpl. rewrite N.eqb_refl. reflexivity.
    + right. rewrite !pool_calls_app, Hcp, Hp. reflexivity.
    + rewrite !returned_app, Hr. simpl. rewrite !app_nil_r. reflexivity.
Qed.

(** For the supported protocol the task gets exactly one status. *)
Lemma transaction_http_returns_once (env : Env) (req : Request.t)
    (resp : Response.t) :
  Protocol (Request.url req) = "http" ->
  exists st w s,
    transaction env req (init_world resp) = Ok st w /\
    returned (log w) = [s].
Proof.
  intros Hp.
  destruct (transaction_summary env req resp)
    as (st & w & s & Heq & _ & _ & _ & _ & Hr).
  exists st, w, s. split; [exact Heq|].
  rewrite Hr. unfold ctor_calls. rewrite Hp. reflexivity.
Qed.

(** For any other protocol the task gets two: INVALID_ARGUMENT from the
    constructor and then the status of the queued step. *)
Lemma transaction_unsupported_returns_twice (env : Env) (req : Request.t)
    (resp : Response.t) :
  Protocol (Request.url req) <> "http" ->
  exists st w s,
    transaction env req (init_world resp) = Ok st w /\
    returned (log w)
    = [mkStatus error.INVALID_ARGUMENT
         ("UrlFetcher: unsupported protocol: "
          ++ Protocol (Request.url req))%string;
       s].
Proof.
  intros Hp.
  destruct (transaction_summary env req resp)
    as (st & w & s & Heq & _ & _ & _ & _ & Hr).
  exists st, w, s. split; [exact Heq|].
  rewrite Hr. unfold ctor_calls.
  apply String.eqb_neq in Hp. rewrite Hp. reflexivity.
Qed.

(** [MakeRequest] never writes the caller's response. *)
Lemma MakeRequest_response (env : Env) (this : State) (w : World) :
  response (world_of (MakeRequest env this w)) = response w.
Proof.
  destruct (conn_ this) as [c|] eqn:Hc.
  - unfold MakeRequest. rewrite Hc. reflexivity.
  - destruct (MakeRequest_cases env this w Hc)
      as [(l & s & Heq & _) | (l & Heq & _)]; rewrite Heq; reflexivity.
Qed.

Lemma State_ctor_response (env : Env) (request : Request.t) (w : World) :
  response (world_of (State_ctor env request w)) = response w.
Proof.
  destruct (string_dec (Protocol (Request.url request)) "http") as [Hp|Hp].
  - rewrite (State_ctor_http env request w Hp). reflexivity.
  - rewrite (State_ctor_unsupported env request w Hp). reflexivity.
Qed.

(** ** The claims *)

(** C1. The claim: a request whose protocol is not "http" completes with
    INVALID_ARGUMENT and never reaches the pool.  The code returns
    INVALID_ARGUMENT from the constructor, but [Fetch] queues [MakeRequest]
    all the same: for the https request below, whose deadline is not yet
    passed, the transaction takes connection 7 from the pool, submits the
    request, and returns a second status. *)
Theorem C1_unsupported_protocol_reaches_pool :
  let w := world_of (transaction (env_replying (Some reply_204))
                       (Request_of_URL example_https_url)
                       (init_world Response.default)) in
  hd_error (returned (log w))
  = Some (mkStatus error.INVALID_ARGUMENT
            "UrlFetcher: unsupported protocol: https") /\
  pool_calls (log w)
  = [Pool_Get example_https_url 7%N; Pool_Put (Some 7%N)] /\
  In (evhttp_make_request_call (Some 7%N) EVHTTP_REQ_GET "/") (log w).
Proof.
  vm_compute. repeat split. do 8 right. left. reflexivity.
Qed.

(** C2. The claim: [Task::Return] is called exactly once per transaction,
    and never while a connection is held.  For the https request below the
    code calls it twice: once from the constructor and once from
    [RequestDone]. *)
Theorem C2_unsupported_protocol_returns_twice :
  returned (log (world_of (transaction (env_replying (Some reply_204))
                             (Request_of_URL example_https_url)
                             (init_world Response.default))))
  = [mkStatus error.INVALID_ARGUMENT
       "UrlFetcher: unsupported protocol: https";
     Status_OK].
Proof. vm_compute. reflexivity. Qed.

(** C3. Every transaction of an http request that takes a connection from
    the pool puts that same connection back exactly once, whichever way it
    ends: the pool sees either nothing or one Get followed by one Put of
    the handle it gave; no status is returned while the handle is held;
    the state ends holding no connection, so its destructor's check
    passes; and a further callback would die on the check before putting
    anything back. *)
Theorem C3_connection_released_exactly_once (env : Env) (req : Request.t)
    (resp : Response.t) :
  Protocol (Request.url req) = "http" ->
  exists st w,
    transaction env req (init_world resp) = Ok st w /\
    conn_ st = None /\
    State_dtor st w = Ok tt w /\
    handle_discipline (log w) = true /\
    (pool_calls (log w) = [] \/
     pool_calls (log w)
     = [Pool_Get (Request.url (NormaliseRequest env req)) (pool_Get_result env);
        Pool_Put (Some (pool_Get_result env))]) /\
    List.length (filter is_Pool_Get (log w))
    = List.length (filter is_Pool_Put (log w)) /\
    (forall again, RequestDone again st w = Fatal "conn_" w).
Proof.
  intros _.
  destruct (transaction_summary env req resp)
    as (st & w & s & Heq & Hc & _ & Hh & Hp & _).
  exists st, w. split; [exact Heq|]. split; [exact Hc|].
  split; [unfold State_dtor; rewrite Hc; reflexivity|].
  split; [unfold handle_discipline; rewrite Hh; reflexivity|].
  split; [exact Hp|].
  split.
  - assert (Hg : forall l, filter is_Pool_Get l
                           = filter is_Pool_Get (pool_calls l)).
    { intros l. induction l as [|c l IH]; [reflexivity|].
      destruct c; simpl; rewrite ?IH; reflexivity. }
    assert (Hq : forall l, filter is_Pool_Put l
                           = filter is_Pool_Put (pool_calls l)).
    { intros l. induction l as [|c l IH]; [reflexivity|].
      destruct c; simpl; rewrite ?IH; reflexivity. }
    rewrite Hg, Hq. destruct Hp as [-> | ->]; reflexivity.
  - intros again. unfold RequestDone. rewrite Hc. reflexivity.
Qed.

Lemma C3_witness :
  Protocol (Request.url (Request_of_URL example_http_url)) = "http" /\
  exists st w,
    transaction (env_replying (Some reply_204))
      (Request_of_URL example_http_url) (init_world Response.default)
    = Ok st w /\
    conn_ st = None /\
    handle_discipline (log w) = true.
Proof.
  assert (Hp : Protocol (Request.url (Request_of_URL example_http_url))
               = "http") by reflexivity.
  split; [exact Hp|].
  destruct (C3_connection_released_exactly_once
              (env_replying (Some reply_204))
              (Request_of_URL example_http_url) Response.default Hp)
    as (st & w & Heq & Hc & _ & Hh & _).
  exists st, w. split; [exact Heq|]. split; [exact Hc | exact Hh].
Defined.




(** C6. A completion callback that carries a response, on a state that
    holds its connection: below status 100 the task gets
    FAILED_PRECONDITION ("connection refused"); from 100 on, 100 included,
    the status code, every response header and the whole body are copied
    into the caller's response and the task gets OK. *)
Theorem C6_status_code_boundary (req : evhttp_request) (this : State)
    (w : World) (c : connection) :
  conn_ this = Some c ->
  (response_code req < 100 ->
   RequestDone (Some req) this w
   = Ok (mkState (request_ this) None)
        (mkWorld
           (Response.mk (response_code req) (Response.headers (response w))
              (Response.body (response w)))
           (log w ++ [Pool_Put (Some c);
                      Task_Return (mkStatus error.FAILED_PRECONDITION
                                     "connection refused")])
           (in_flight w))) /\
  (100 <= response_code req ->
   RequestDone (Some req) this w
   = Ok (mkState (request_ this) None)
        (mkWorld
           (Response.mk (response_code req)
              (copy_headers (input_headers req) []) (input_buffer req))
           (log w ++ [Pool_Put (Some c); Task_Return Status_OK])
           (in_flight w)) /\
   error_code Status_OK = error.OK /\
   Permutation (copy_headers (input_headers req) []) (input_headers req) /\
   Headers_sorted (copy_headers (input_headers req) []) = true).
Proof.
  intros Hc. split.
  - intros Hlt. apply RequestDone_low; assumption.
  - intros Hge. split; [apply RequestDone_ok; assumption|].
    split; [reflexivity|]. split.
    + rewrite copy_headers_Permutation, app_nil_r. reflexivity.
    + apply copy_headers_sorted. reflexivity.
Qed.

Lemma C6_witness :
  conn_ state_in_flight = Some 7%N /\
  100 <= response_code reply_204 /\
  RequestDone (Some reply_204) state_in_flight (init_world Response.default)
  = Ok (mkState (request_ state_in_flight) None)
       (mkWorld (Response.mk 204 [("X-Test", "1")] "")
          [Pool_Put (Some 7%N); Task_Return Status_OK] false).
Proof.
  split; [reflexivity|]. split; [vm_compute; discriminate|].
  apply (proj2 (C6_status_code_boundary reply_204 state_in_flight
                  (init_world Response.default) 7%N eq_refl)).
  vm_compute. discriminate.
Defined.

(** C8. A completion callback that carries no response, on a state that
    holds its connection: the connection is put back first, then UNKNOWN is
    returned to the task; nothing else is called and the caller's response
    is as it was. *)
Theorem C8_null_response (this : State) (w : World) (c : connection) :
  conn_ this = Some c ->
  RequestDone None this w
  = Ok (mkState (request_ this) None)
       (mkWorld (response w)
          (log w ++ [Pool_Put (Some c); Task_Return Status_UNKNOWN])
          (in_flight w)) /\
  error_code Status_UNKNOWN = error.UNKNOWN.
Proof.
  intros Hc. split; [apply RequestDone_null; exact Hc | reflexivity].
Qed.

Lemma C8_witness :
  conn_ state_in_flight = Some 7%N /\
  RequestDone None state_in_flight (init_world Response.default)
  = Ok (mkState (request_ state_in_flight) None)
       (mkWorld Response.default
          [Pool_Put (Some 7%N); Task_Return Status_UNKNOWN] false).
Proof.
  split; [reflexivity|].
  apply (proj1 (C8_null_response state_in_flight
                  (init_world Response.default) 7%N eq_refl)).
Defined.

(** The claim C7 as stated fails: a reply with status 99 ends the
    transaction with FAILED_PRECONDITION, yet the caller's response has
    changed, its status code now being 99. *)
Lemma C7_counterexample :
  let w := world_of (transaction (env_replying (Some reply_99))
                       (Request_of_URL example_http_url)
                       (init_world Response.default)) in
  returned (log w)
  = [mkStatus error.FAILED_PRECONDITION "connection refused"] /\
  Response.status_code (response w) = 99 /\
  response w <> Response.default.
Proof. vm_compute. repeat split. discriminate. Qed.

(** C7, amended. The constructor (protocol rejection), [MakeRequest] on
    each of its paths (deadline passed, body not attached, submission
    failed) and the callback with the null request leave the caller's
    response as it was.  The callback with a status code below 100 writes
    that code into [status_code] and leaves the headers and the body as
    they were.  Headers and body change only in the callback that returns
    OK, which writes status code, headers and body together. *)
Theorem C7_failure_paths_frame (env : Env) :
  (forall request w,
      response (world_of (State_ctor env request w)) = response w) /\
  (forall this w,
      response (world_of (MakeRequest env this w)) = response w) /\
  (forall this w,
      response (world_of (RequestDone None this w)) = response w) /\
  (forall req this w c,
      conn_ this = Some c ->
      response_code req < 100 ->
      response (world_of (RequestDone (Some req) this w))
      = Response.mk (response_code req) (Response.headers (response w))
          (Response.body (response w))) /\
  (forall req this w,
      let w' := world_of (RequestDone req this w) in
      (Response.headers (response w') = Response.headers (response w) /\
       Response.body (response w') = Response.body (response w))
      \/
      (exists r,
          req = Some r /\ 100 <= response_code r /\
          response w'
          = Response.mk (response_code r)
              (copy_headers (input_headers r) []) (input_buffer r) /\
          log w' = log w ++ [Pool_Put (conn_ this); Task_Return Status_OK])).
Proof.
  split; [intros; apply State_ctor_response|].
  split; [intros; apply MakeRequest_response|].
  assert (Hnull : forall this w,
             response (world_of (RequestDone None this w)) = response w).
  { intros this w. destruct (conn_ this) as [c|] eqn:Hc.
    - rewrite (RequestDone_null this w c Hc). reflexivity.
    - unfold RequestDone. rewrite Hc. reflexivity. }
  split; [exact Hnull|].
  split.
  - intros req this w c Hc Hlt.
    rewrite (RequestDone_low req this w c Hc Hlt). reflexivity.
  - intros [r|] this w w'; subst w'.
    + destruct (conn_ this) as [c|] eqn:Hc.
      * destruct (Z.lt_ge_cases (response_code r) 100) as [Hlt|Hge].
        -- left. rewrite (RequestDone_low r this w c Hc Hlt). split; reflexivity.
        -- right. exists r. rewrite (RequestDone_ok r this w c Hc Hge).
           repeat split. exact Hge.
      * left. unfold RequestDone. rewrite Hc. split; reflexivity.
    + left. rewrite Hnull. split; reflexivity.
Qed.

Lemma C7_witness :
  conn_ state_in_flight = Some 7%N /\
  response_code reply_99 < 100 /\
  response (world_of (RequestDone (Some reply_99) state_in_flight
                        (init_world Response.default)))
  = Response.mk 99 [] "".
Proof.
  split; [reflexivity|]. split; [reflexivity|].
  apply (proj1 (proj2 (proj2 (proj2
           (C7_failure_paths_frame (env_replying (Some reply_99))))))
           reply_99 state_in_flight (init_world Response.default) 7%N
           eq_refl).
  reflexivity.
Defined.

(** C9. Header names are looked up without regard to case.  After a value
    is inserted under a name, the lookup of any name that differs from it
    only in case succeeds, and returns that very entry when no such name
    was present before; the entry is added at the end of the values held
    under the name.  Values inserted one after the other under case
    variants of one name are all kept, and are retrieved under any of the
    variants in the order of their insertion. *)
Theorem C9_header_names_case_insensitive
    (k1 k2 v : string) (kvs : list (string * string)) (h : Headers) :
  same_ignoring_case k1 k2 ->
  Forall (fun kv => same_ignoring_case k2 (fst kv)) kvs ->
  (exists e,
      Headers_find k2 (Headers_insert (k1, v) h) = Some e /\
      same_ignoring_case k2 (fst e) /\
      In e (Headers_insert (k1, v) h)) /\
  (Headers_find k2 h = None ->
   Headers_find k2 (Headers_insert (k1, v) h) = Some (k1, v)) /\
  Headers_equal_range k2 (Headers_insert (k1, v) h)
  = Headers_equal_range k2 h ++ [(k1, v)] /\
  Headers_equal_range k2 (copy_headers kvs h)
  = Headers_equal_range k2 h ++ kvs /\
  Permutation (copy_headers kvs h) (kvs ++ h).
Proof.
  intros H12 Hall.
  assert (H21 : same_ignoring_case k2 (fst (k1, v))) by (symmetry; exact H12).
  split; [|split; [|split; [|split]]].
  - rewrite (Headers_find_insert k2 (k1, v) h H21). eexists.
    split; [reflexivity|].
    pose proof (Headers_find_insert k2 (k1, v) h H21) as Hf.
    apply (find_Some _ _ ci_less) in Hf. destruct Hf as [He Hin].
    split; [apply equiv_same_ignoring_case; exact He | exact Hin].
  - intros Hn. rewrite (Headers_find_insert k2 (k1, v) h H21), Hn.
    reflexivity.
  - apply Headers_equal_range_insert. exact H21.
  - clear H12 H21. revert h.
    induction Hall as [|kv kvs Hkv _ IH]; intros h.
    + simpl. rewrite app_nil_r. reflexivity.
    + simpl. rewrite IH, (Headers_equal_range_insert k2 kv h Hkv).
      rewrite <- app_assoc. reflexivity.
  - apply copy_headers_Permutation.
Qed.

Lemma C9_witness :
  same_ignoring_case "host" "Host" /\
  Forall (fun kv => same_ignoring_case "Host" (fst kv)) example_host_values /\
  Headers_find "Host" (Headers_insert ("host", "example.com") [])
  = Some ("host", "example.com") /\
  Headers_equal_range "host" (copy_headers example_host_values [])
  = example_host_values.
Proof.
  assert (H1 : same_ignoring_case "host" "Host") by reflexivity.
  assert (H2 : Forall (fun kv => same_ignoring_case "Host" (fst kv))
                 example_host_values)
    by (repeat constructor).
  assert (H3 : Forall (fun kv => same_ignoring_case "host" (fst kv))
                 example_host_values)
    by (repeat constructor).
  split; [exact H1|]. split; [exact H2|]. split.
  - apply (proj1 (proj2 (C9_header_names_case_insensitive
                           "host" "Host" "example.com" example_host_values []
                           H1 H2))).
    reflexivity.
  - apply (proj1 (proj2 (proj2 (proj2
             (C9_header_names_case_insensitive
                "Host" "host" "example.com" example_host_values []
                (eq_sym H1) H3))))).
Defined.

Lemma C4_witness :
  Request.deadline (Request_of_URL example_http_url) = 0 /\
  Path (Request.url (Request_of_URL example_http_url)) = "" /\
  Headers_find "Host" (Request.headers (Request_of_URL example_http_url))
  = None /\
  let r := NormaliseRequest (env_replying None)
             (Request_of_URL example_http_url) in
  Request.deadline r = seconds 61 /\
  Path (Request.url r) = "/" /\
  Request.headers r = [("Host", "example.com")].
Proof.
  pose proof (C4_normalisation (env_replying None)
                (Request_of_URL example_http_url)) as H.
  cbv zeta in H. destruct H as (Hd & _ & _ & Hp & _ & _ & Hi & _).
  split; [reflexivity|]. split; [reflexivity|]. split; [reflexivity|].
  cbv zeta. split; [|split].
  - rewrite (Hd eq_refl). vm_compute. reflexivity.
  - exact (Hp eq_refl).
  - rewrite (Hi eq_refl). vm_compute. reflexivity.
Defined.

Lemma C10_witness :
  0 <= now_NormaliseRequest (env_replying None) /\
  0 < FLAGS_url_fetcher_default_timeout_seconds (env_replying None) /\
  NormaliseRequest env_late
    (NormaliseRequest (env_replying None) (Request_of_URL example_http_url))
  = NormaliseRequest (env_replying None) (Request_of_URL example_http_url).
Proof.
  assert (H1 : 0 <= now_NormaliseRequest (env_replying None))
    by (vm_compute; discriminate).
  assert (H2 : 0 < FLAGS_url_fetcher_default_timeout_seconds
                     (env_replying None))
    by reflexivity.
  split; [exact H1|]. split; [exact H2|].
  apply (C10_normalisation_idempotent (env_replying None) env_late
           (Request_of_URL example_http_url) H1 H2).
Defined.

(** * Part III: further properties of the fetcher *)

(** ** Lookups that an insertion leaves alone *)

Section MultimapFrame.

Variables K V : Type.
Variable less : K -> K -> bool.
Implicit Types (a b c k : K) (e x kv : K * V) (m : list (K * V)).

Hypothesis less_irrefl : forall a, less a a = false.
Hypothesis less_trans :
  forall a b c, less a b = true -> less b c = true -> less a c = true.
Hypothesis nless_trans :
  forall a b c, less b a = false -> less c b = false -> less c a = false.

Lemma filter_insert_other (p : K * V -> bool) kv m :
  p kv = false -> filter p (insert less kv m) = filter p m.
Proof.
  intros Hp. destruct (insert_upper_bound K V less kv m) as (before & Hm & Hi).
  rewrite Hi. rewrite Hm at 2. rewrite !filter_app. simpl. rewrite Hp.
  reflexivity.
Qed.

(** Inserting under a key that is not equivalent to [k] changes neither
    the range of [k] nor what [find] returns for it. *)
Lemma equal_range_insert_other k kv m :
  sorted less m = true ->
  equiv K less k (fst kv) = false ->
  equal_range less k (insert less kv m) = equal_range less k m.
Proof.
  intros Hs Hne.
  rewrite (equal_range_filter K V less less_irrefl less_trans nless_trans
             k (insert less kv m)
             (sorted_insert K V less less_irrefl less_trans nless_trans
                kv m Hs)).
  rewrite (equal_range_filter K V less less_irrefl less_trans nless_trans
             k m Hs).
  apply filter_insert_other. exact Hne.
Qed.

Lemma find_insert_other k kv m :
  sorted less m = true ->
  equiv K less k (fst kv) = false ->
  find less k (insert less kv m) = find less k m.
Proof.
  intros Hs Hne. rewrite !find_hd_equal_range.
  rewrite (equal_range_insert_other k kv m Hs Hne). reflexivity.
Qed.

End MultimapFrame.

(** The boolean form of [same_ignoring_case]. *)
Lemma equiv_ci_less_iff (a b : string) :
  equiv string ci_less a b = true <-> same_ignoring_case a b.
Proof.
  split; [apply equiv_same_ignoring_case | apply same_ignoring_case_equiv].
Qed.

Lemma not_same_ignoring_case_equiv (a b : string) :
  ~ same_ignoring_case a b -> equiv string ci_less a b = false.
Proof.
  intros Hne. destruct (equiv string ci_less a b) eqn:He; [|reflexivity].
  apply equiv_ci_less_iff in He. contradiction.
Qed.

Lemma Headers_find_insert_other (k : string) (kv : string * string)
    (h : Headers) :
  Headers_sorted h = true ->
  ~ same_ignoring_case k (fst kv) ->
  Headers_find k (Headers_insert kv h) = Headers_find k h.
Proof.
  intros Hs Hne.
  apply (find_insert_other _ _ ci_less ci_less_irrefl ci_less_trans
           ci_nless_trans); [exact Hs|].
  apply not_same_ignoring_case_equiv. exact Hne.
Qed.

Lemma Headers_equal_range_insert_other (k : string) (kv : string * string)
    (h : Headers) :
  Headers_sorted h = true ->
  ~ same_ignoring_case k (fst kv) ->
  Headers_equal_range k (Headers_insert kv h) = Headers_equal_range k h.
Proof.
  intros Hs Hne.
  apply (equal_range_insert_other _ _ ci_less ci_less_irrefl ci_less_trans
           ci_nless_trans); [exact Hs|].
  apply not_same_ignoring_case_equiv. exact Hne.
Qed.

(** X1. Inserting a header under a name that is not a case variant of [k]
    leaves the lookup of [k], and the values held under [k], as they
    were. *)
Theorem Headers_insert_other_name (k : string) (kv : string * string)
    (h : Headers) :
  Headers_sorted h = true ->
  ~ same_ignoring_case k (fst kv) ->
  Headers_find k (Headers_insert kv h) = Headers_find k h /\
  Headers_equal_range k (Headers_insert kv h) = Headers_equal_range k h.
Proof.
  intros Hs Hne. split.
  - apply Headers_find_insert_other; assumption.
  - apply Headers_equal_range_insert_other; assumption.
Qed.

Lemma Headers_insert_other_name_witness :
  Headers_sorted [("Accept", "*/*")] = true /\
  ~ same_ignoring_case "Accept" "Host" /\
  Headers_find "Accept" (Headers_insert ("Host", "example.com")
                           [("Accept", "*/*")])
  = Some ("Accept", "*/*").
Proof.
  assert (H1 : Headers_sorted [("Accept", "*/*")] = true) by reflexivity.
  assert (H2 : ~ same_ignoring_case "Accept" (fst ("Host", "example.com")))
    by (vm_compute; discriminate).
  split; [exact H1|]. split; [exact H2|].
  rewrite (proj1 (Headers_insert_other_name "Accept" ("Host", "example.com")
                    [("Accept", "*/*")] H1 H2)).
  reflexivity.
Defined.

(** X2. A lookup in a well-formed header map fails exactly when no entry
    has a name equal to the one looked up, case ignored; what a lookup returns is
    an entry of the map under such a name. *)
Theorem Headers_find_spec (k : string) (h : Headers) :
  Headers_sorted h = true ->
  (Headers_find k h = None <->
   forall x, In x h -> ~ same_ignoring_case k (fst x)) /\
  (forall e, Headers_find k h = Some e ->
             In e h /\ same_ignoring_case k (fst e)).
Proof.
  intros Hs. split; [apply Headers_find_None_iff; exact Hs|].
  intros e He. apply (find_Some _ _ ci_less) in He. destruct He as [He Hin].
  split; [exact Hin | apply equiv_ci_less_iff; exact He].
Qed.

Lemma Headers_find_spec_witness :
  Headers_sorted [("Accept", "*/*"); ("host", "a")] = true /\
  Headers_find "HOST" [("Accept", "*/*"); ("host", "a")] = Some ("host", "a") /\
  In ("host", "a") [("Accept", "*/*"); ("host", "a")].
Proof.
  assert (H1 : Headers_sorted [("Accept", "*/*"); ("host", "a")] = true)
    by reflexivity.
  assert (H2 : Headers_find "HOST" [("Accept", "*/*"); ("host", "a")]
               = Some ("host", "a")) by reflexivity.
  split; [exact H1|]. split; [exact H2|].
  exact (proj1 (proj2 (Headers_find_spec "HOST" _ H1) _ H2)).
Defined.

(** After the header loop of [RequestDone] the values held under a name are
    the received values whose name equals it, case ignored, in the order
    received. *)
Lemma copy_headers_equal_range (k : string) (input : list (string * string)) :
  forall h,
    Headers_sorted h = true ->
    Headers_equal_range k (copy_headers input h)
    = Headers_equal_range k h
      ++ filter (fun kv => equiv string ci_less k (fst kv)) input.
Proof.
  induction input as [|kv input IH]; intros h Hs; simpl.
  - rewrite app_nil_r. reflexivity.
  - rewrite (IH _ (Headers_sorted_insert kv h Hs)).
    destruct (equiv string ci_less k (fst kv)) eqn:He.
    + apply equiv_ci_less_iff in He.
      rewrite (Headers_equal_range_insert k kv h He), <- app_assoc.
      reflexivity.
    + assert (Hne : ~ same_ignoring_case k (fst kv)).
      { intros Hc. apply equiv_ci_less_iff in Hc. congruence. }
      rewrite (Headers_equal_range_insert_other k kv h Hs Hne).
      reflexivity.
Qed.

(** ** The whole trace of a transaction *)












(** ** What a transaction returns *)









(** ** What reaches libevent and the pool *)









Lemma PathQuery_nonempty (u : URL) : Path u <> "" -> PathQuery u <> "".
Proof.
  unfold PathQuery. intros Hp.
  destruct (Query u =? "")%string; [exact Hp|].
  destruct (Path u); [contradiction | discriminate].
Qed.

Lemma NormaliseRequest_keeps_headers (env : Env) (req : Request.t)
    (kv : string * string) :
  In kv (Request.headers req) ->
  In kv (Request.headers (NormaliseRequest env req)).
Proof.
  unfold NormaliseRequest. simpl. intros Hin.
  destruct (Headers_find "Host" (Request.headers req)); [exact Hin|].
  apply insert_In. right. exact Hin.
Qed.











(** ** Steps run in the wrong state *)

(** X10. The checks on the connection stop a step before it calls anything:
    [MakeRequest] on a state that holds a connection, [RequestDone] on one
    that holds none and the destructor on one that holds one die with the
    world as it was.  So a callback that fired a second time would die
    before putting anything back. *)
Theorem checks_guard_the_connection :
  (forall env this w c,
      conn_ this = Some c ->
      MakeRequest env this w
      = Fatal "making a request while one is already outstanding?" w) /\
  (forall req this w,
      conn_ this = None -> RequestDone req this w = Fatal "conn_" w) /\
  (forall this w c,
      conn_ this = Some c ->
      State_dtor this w
      = Fatal "request state object still had a connection at cleanup?" w) /\
  (forall req req' this w this' w',
      RequestDone req this w = Ok this' w' ->
      RequestDone req' this' w' = Fatal "conn_" w').
Proof.
  split; [|split; [|split]].
  - intros env this w c Hc. unfold MakeRequest. rewrite Hc. reflexivity.
  - intros req this w Hc. unfold RequestDone. rewrite Hc. reflexivity.
  - intros this w c Hc. unfold State_dtor. rewrite Hc. reflexivity.
  - intros req req' this w this' w' Hok.
    destruct (conn_ this) as [c|] eqn:Hc.
    + destruct (RequestDone_cases req this w c Hc) as (resp' & s & Heq).
      rewrite Heq in Hok. injection Hok as <- <-.
      unfold RequestDone. reflexivity.
    + unfold RequestDone in Hok. rewrite Hc in Hok. discriminate.
Qed.

Lemma checks_guard_the_connection_witness :
  conn_ state_in_flight = Some 7%N /\
  MakeRequest (env_replying None) state_in_flight (init_world Response.default)
  = Fatal "making a request while one is already outstanding?"
      (init_world Response.default).
Proof.
  split; [reflexivity|].
  apply (proj1 checks_guard_the_connection (env_replying None)
           state_in_flight (init_world Response.default) 7%N eq_refl).
Defined.

(** X11. The state holds a connection exactly while libevent owes it a
    callback: after [MakeRequest], started holding nothing with no request
    in flight, the two agree, and once libevent has fired what it owes the
    state holds nothing and no request is in flight. *)
Theorem connection_held_while_pending (env : Env) (this : State) (w : World) :
  conn_ this = None ->
  in_flight w = false ->
  exists this' w',
    MakeRequest env this w = Ok this' w' /\
    coherent this' w' /\
    exists st w'',
      libevent_dispatch env this' w' = Ok st w'' /\
      conn_ st = None /\ in_flight w'' = false.
Proof.
  intros Hc Hf.
  destruct (MakeRequest_cases env this w Hc)
    as [(l & s & Heq & _) | (l & Heq & _)].
  - do 2 eexists. split; [exact Heq|]. split.
    + unfold coherent. simpl. rewrite Hc, Hf. reflexivity.
    + unfold libevent_dispatch. mstep. rewrite Hf.
      do 2 eexists. split; [reflexivity|]. simpl. auto.
  - do 2 eexists. split; [exact Heq|]. split; [reflexivity|].
    unfold libevent_dispatch, RequestCallback. mstep.
    destruct (RequestDone_cases (callback_req env)
                (mkState (request_ this) (Some (pool_Get_result env)))
                (mkWorld (response w) (log w ++ l) false)
                (pool_Get_result env) eq_refl) as (resp' & s & Hrd).
    rewrite Hrd. do 2 eexists. split; [reflexivity|]. simpl. auto.
Qed.

Lemma connection_held_while_pending_witness :
  exists this' w',
    MakeRequest (env_replying None)
      (mkState (request_ state_in_flight) None)
      (init_world Response.default) = Ok this' w' /\
    coherent this' w'.
Proof.
  destruct (connection_held_while_pending (env_replying None)
              (mkState (request_ state_in_flight) None)
              (init_world Response.default) eq_refl eq_refl)
    as (this' & w' & Heq & Hco & _).
  exists this', w'. split; [exact Heq | exact Hco].
Defined.

(** ** More on normalisation *)

Section MultimapEquivalentKeys.

Variables K V : Type.
Variable less : K -> K -> bool.
Implicit Types (a b c k : K) (e x kv : K * V) (m : list (K * V)).

Hypothesis less_irrefl : forall a, less a a = false.
Hypothesis less_trans :
  forall a b c, less a b = true -> less b c = true -> less a c = true.
Hypothesis nless_trans :
  forall a b c, less b a = false -> less c b = false -> less c a = false.

(** Equivalent keys are looked up alike. *)
Lemma find_equiv k k' m :
  equiv K less k k' = true -> find less k m = find less k' m.
Proof.
  intros Heq. unfold find.
  assert (Hlb : lower_bound less k m = lower_bound less k' m).
  { induction m as [|e m IH]; [reflexivity|]. simpl.
    rewrite (equiv_less_r K less less_irrefl less_trans nless_trans
               _ _ (fst e) Heq), IH.
    reflexivity. }
  rewrite Hlb. destruct (lower_bound less k' m) as [|e l]; [reflexivity|].
  rewrite (equiv_less_l K less less_irrefl less_trans nless_trans
             _ _ (fst e) Heq).
  reflexivity.
Qed.

End MultimapEquivalentKeys.

Lemma Headers_find_same_ignoring_case (k k' : string) (h : Headers) :
  same_ignoring_case k k' -> Headers_find k h = Headers_find k' h.
Proof.
  intros Hc. apply (find_equiv _ _ ci_less ci_less_irrefl ci_less_trans
                      ci_nless_trans).
  apply same_ignoring_case_equiv. exact Hc.
Qed.

(** X12. Normalisation keeps every header the caller gave, adds at most
    the one header Host: url.host, and keeps the header map well formed. *)
Theorem NormaliseRequest_headers_invariant (env : Env) (req : Request.t) :
  let r := NormaliseRequest env req in
  (forall kv, In kv (Request.headers req) -> In kv (Request.headers r)) /\
  (forall kv, In kv (Request.headers r) ->
              In kv (Request.headers req)
              \/ kv = ("Host", Host (Request.url req))) /\
  (List.length (Request.headers r) <= S (List.length (Request.headers req)))%nat /\
  (Headers_sorted (Request.headers req) = true ->
   Headers_sorted (Request.headers r) = true).
Proof.
  intros r. subst r. split; [apply NormaliseRequest_keeps_headers|].
  unfold NormaliseRequest. simpl.
  replace (Host (if (Path (Request.url req) =? "")%string
                 then SetPath (Request.url req) "/"
                 else Request.url req))
    with (Host (Request.url req))
    by (destruct (Path (Request.url req) =? "")%string; reflexivity).
  destruct (Headers_find "Host" (Request.headers req)).
  - split; [intros kv H; left; exact H|]. split; [lia | auto].
  - split; [|split].
    + intros kv H. apply insert_In in H. tauto.
    + unfold Headers_insert. rewrite insert_length. lia.
    + apply Headers_sorted_insert.
Qed.

Lemma NormaliseRequest_headers_invariant_witness :
  Headers_sorted [("Accept", "*/*")] = true /\
  Headers_sorted
    (Request.headers
       (NormaliseRequest (env_replying None)
          (Request.mk GET example_http_url [("Accept", "*/*")] "" 0)))
  = true.
Proof.
  assert (H1 : Headers_sorted [("Accept", "*/*")] = true) by reflexivity.
  split; [exact H1|].
  pose proof (NormaliseRequest_headers_invariant (env_replying None)
                (Request.mk GET example_http_url [("Accept", "*/*")] "" 0))
    as H.
  cbv zeta in H. apply (proj2 (proj2 (proj2 H))). exact H1.
Defined.

(** X13. Whatever the caller gave, the normalised request has a path that
    is not empty, so the path and query sent are not empty, and the lookup
    of Host succeeds in its headers under any spelling of the name. *)
Theorem NormaliseRequest_ready_for_the_wire (env : Env) (req : Request.t) :
  let r := NormaliseRequest env req in
  Path (Request.url r) <> "" /\
  PathQuery (Request.url r) <> "" /\
  (forall k, same_ignoring_case k "Host" ->
             exists e, Headers_find k (Request.headers r) = Some e /\
                       In e (Request.headers r) /\
                       same_ignoring_case k (fst e)).
Proof.
  intros r. subst r.
  pose proof (NormaliseRequest_path_nonempty env req) as Hp.
  split; [exact Hp|]. split; [apply PathQuery_nonempty; exact Hp|].
  intros k Hk. destruct (NormaliseRequest_has_Host env req) as [e He].
  exists e. rewrite (Headers_find_same_ignoring_case k "Host" _ Hk).
  split; [exact He|].
  apply (find_Some _ _ ci_less) in He. destruct He as [He Hin].
  split; [exact Hin|].
  apply equiv_ci_less_iff in He. unfold same_ignoring_case in *. congruence.
Qed.

Lemma NormaliseRequest_ready_for_the_wire_witness :
  same_ignoring_case "HOST" "Host" /\
  exists e,
    Headers_find "HOST"
      (Request.headers (NormaliseRequest (env_replying None)
                          (Request_of_URL example_http_url)))
    = Some e.
Proof.
  assert (H1 : same_ignoring_case "HOST" "Host") by reflexivity.
  split; [exact H1|].
  pose proof (NormaliseRequest_ready_for_the_wire (env_replying None)
                (Request_of_URL example_http_url)) as H.
  cbv zeta in H. destruct H as (_ & _ & H).
  destruct (H "HOST" H1) as (e & He & _). exists e. exact He.
Defined.

(** X14. A header the caller gave under any spelling of Host, in a
    well-formed header map, stops the insertion: the headers of the
    normalised request are the caller's, and the caller's value stands
    even when it differs from the host of the URL. *)
Theorem existing_Host_header_is_kept (env : Env) (req : Request.t)
    (k v : string) :
  Headers_sorted (Request.headers req) = true ->
  In (k, v) (Request.headers req) ->
  same_ignoring_case "Host" k ->
  Request.headers (NormaliseRequest env req) = Request.headers req.
Proof.
  intros Hs Hin Hk. unfold NormaliseRequest. simpl.
  destruct (Headers_find "Host" (Request.headers req)) eqn:Hf; [reflexivity|].
  exfalso.
  exact (proj1 (Headers_find_None_iff "Host" _ Hs) Hf (k, v) Hin Hk).
Qed.

Lemma existing_Host_header_is_kept_witness :
  Headers_sorted [("host", "other.example")] = true /\
  In ("host", "other.example") [("host", "other.example")] /\
  same_ignoring_case "Host" "host" /\
  Request.headers
    (NormaliseRequest (env_replying None)
       (Request.mk GET example_http_url [("host", "other.example")] "" 0))
  = [("host", "other.example")].
Proof.
  assert (H1 : Headers_sorted [("host", "other.example")] = true)
    by reflexivity.
  assert (H2 : In ("host", "other.example") [("host", "other.example")])
    by (left; reflexivity).
  assert (H3 : same_ignoring_case "Host" "host") by reflexivity.
  split; [exact H1|]. split; [exact H2|]. split; [exact H3|].
  apply (existing_Host_header_is_kept (env_replying None)
           (Request.mk GET example_http_url [("host", "other.example")] "" 0)
           "host" "other.example" H1 H2 H3).
Defined.

(** ** The response after a reply *)

(** X15. After a reply with a status code of at least 100, the values the
    caller's response holds under a name are the values received under
    that name, case ignored, in the order received; a lookup returns the
    first of them; nothing is left of the headers the response held
    before. *)
Theorem reply_headers_by_name (reply : evhttp_request) (this : State)
    (w : World) (c : connection) (k : string) :
  conn_ this = Some c ->
  100 <= response_code reply ->
  let h := Response.headers
             (response (world_of (RequestDone (Some reply) this w))) in
  Headers_equal_range k h = filter (named k) (input_headers reply) /\
  Headers_find k h = hd_error (filter (named k) (input_headers reply)) /\
  Permutation h (input_headers reply) /\
  Headers_sorted h = true.
Proof.
  intros Hc Hge h. subst h.
  rewrite (RequestDone_ok reply this w c Hc Hge). simpl.
  assert (Hr : Headers_equal_range k (copy_headers (input_headers reply) [])
               = filter (named k) (input_headers reply))
    by (rewrite copy_headers_equal_range by reflexivity; reflexivity).
  split; [exact Hr|]. split; [|split].
  - unfold Headers_find. rewrite find_hd_equal_range.
    fold (Headers_equal_range k (copy_headers (input_headers reply) [])).
    rewrite Hr. reflexivity.
  - rewrite copy_headers_Permutation, app_nil_r. reflexivity.
  - apply copy_headers_sorted. reflexivity.
Qed.

Lemma reply_headers_by_name_witness :
  conn_ state_in_flight = Some 7%N /\
  100 <= response_code reply_two_cookies /\
  Headers_equal_range "SET-COOKIE"
    (Response.headers
       (response (world_of (RequestDone (Some reply_two_cookies)
                              state_in_flight
                              (init_world Response.default)))))
  = [("Set-Cookie", "a=1"); ("set-cookie", "b=2")].
Proof.
  assert (H1 : conn_ state_in_flight = Some 7%N) by reflexivity.
  assert (H2 : 100 <= response_code reply_two_cookies)
    by (vm_compute; discriminate).
  split; [exact H1|]. split; [exact H2|].
  pose proof (reply_headers_by_name reply_two_cookies state_in_flight
                (init_world Response.default) 7%N "SET-COOKIE" H1 H2) as H.
  cbv zeta in H. rewrite (proj1 H). vm_compute. reflexivity.
Defined.

(** ** Fetch before the event base runs *)

(** X16. [Fetch] itself builds the state from the normalised request, with
    no connection, and makes exactly these calls, in this order: it takes
    a hold on the task, the constructor returns INVALID_ARGUMENT if the
    protocol is not http, the state is handed to the task, [MakeRequest]
    is queued on the event base, and the hold is let go.  It calls neither
    the pool nor libevent and leaves the caller's response alone. *)
Theorem Fetch_only_queues (env : Env) (req : Request.t) (w : World) :
  exists w' l,
    Fetch env req w = Ok (mkState (NormaliseRequest env req) None) w' /\
    response w' = response w /\
    in_flight w' = in_flight w /\
    log w' = log w ++ l /\
    (Protocol (Request.url req) = "http" ->
     l = [TaskHold_ctor; Task_DeleteWhenDone; Base_Add_MakeRequest;
          TaskHold_dtor]) /\
    (Protocol (Request.url req) <> "http" ->
     l = [TaskHold_ctor;
          Task_Return
            (mkStatus error.INVALID_ARGUMENT
               ("UrlFetcher: unsupported protocol: "
                ++ Protocol (Request.url req))%string);
          Task_DeleteWhenDone; Base_Add_MakeRequest; TaskHold_dtor]).
Proof.
  exists (mkWorld (response w)
            (log w ++ TaskHold_ctor
               :: ctor_calls req
               ++ [Task_DeleteWhenDone; Base_Add_MakeRequest; TaskHold_dtor])
            (in_flight w)),
    (TaskHold_ctor
       :: ctor_calls req
       ++ [Task_DeleteWhenDone; Base_Add_MakeRequest; TaskHold_dtor]).
  split; [apply Fetch_log|].
  do 3 (split; [reflexivity|]).
  unfold ctor_calls. split.
  - intros Hp. rewrite Hp. reflexivity.
  - intros Hp. apply String.eqb_neq in Hp. rewrite Hp. reflexivity.
Qed.

Lemma Fetch_only_queues_witness :
  Protocol (Request.url (Request_of_URL example_https_url)) <> "http" /\
  exists w',
    Fetch (env_replying None) (Request_of_URL example_https_url)
      (init_world Response.default)
    = Ok (mkState (NormaliseRequest (env_replying None)
                     (Request_of_URL example_https_url)) None) w' /\
    log w'
    = [TaskHold_ctor;
       Task_Return
         (mkStatus error.INVALID_ARGUMENT
            "UrlFetcher: unsupported protocol: https");
       Task_DeleteWhenDone; Base_Add_MakeRequest; TaskHold_dtor].
Proof.
  assert (Hp : Protocol (Request.url (Request_of_URL example_https_url))
               <> "http") by discriminate.
  split; [exact Hp|].
  destruct (Fetch_only_queues (env_replying None)
              (Request_of_URL example_https_url)
              (init_world Response.default))
    as (w' & l & Heq & _ & _ & Hl & _ & Hnot).
  exists w'. split; [exact Heq|].
  rewrite Hl, (Hnot Hp). reflexivity.
Defined.

(** ** Verbs and debug output *)

(** X17. Distinct verbs are sent as distinct libevent commands, commands
    are written to the log under distinct names, and a verb is only ever
    sent as GET, POST, PUT or DELETE. *)
Theorem verbs_and_commands_distinct :
  (forall v1 v2, VerbToCmdType v1 = VerbToCmdType v2 -> v1 = v2) /\
  (forall c1 c2, print_cmd c1 = print_cmd c2 -> c1 = c2) /\
  (forall v1 v2,
      print_cmd (VerbToCmdType v1) = print_cmd (VerbToCmdType v2) ->
      v1 = v2) /\
  (forall v, In (VerbToCmdType v)
               [EVHTTP_REQ_GET; EVHTTP_REQ_POST; EVHTTP_REQ_PUT;
                EVHTTP_REQ_DELETE]).
Proof.
  assert (Hv : forall v1 v2, VerbToCmdType v1 = VerbToCmdType v2 -> v1 = v2).
  { intros [] []; simpl; intros H; try reflexivity; discriminate. }
  assert (Hc : forall c1 c2, print_cmd c1 = print_cmd c2 -> c1 = c2).
  { intros [] []; simpl; intros H; try reflexivity; discriminate. }
  split; [exact Hv|]. split; [exact Hc|]. split.
  - intros v1 v2 H. apply Hv, Hc. exact H.
  - intros []; simpl; tauto.
Qed.

Lemma verbs_and_commands_distinct_witness :
  print_cmd (VerbToCmdType PUT) = print_cmd (VerbToCmdType PUT) /\ PUT = PUT.
Proof.
  split; [reflexivity|].
  apply (proj1 (proj2 (proj2 verbs_and_commands_distinct)) PUT PUT).
  reflexivity.
Defined.

Lemma string_append_assoc (a b c : string) :
  ((a ++ b) ++ c)%string = (a ++ (b ++ c))%string.
Proof.
  induction a as [|x a IH]; simpl; [reflexivity|]. rewrite IH. reflexivity.
Qed.

Lemma PrintHeaders_cons (kv : string * string)
    (next : list (string * string)) :
  PrintHeaders (kv :: next) = (header_line kv ++ PrintHeaders next)%string.
Proof.
  unfold header_line, endl. simpl.
  repeat (rewrite !string_append_assoc; simpl). reflexivity.
Qed.

Lemma PrintHeaders_In (kv : string * string) (h : list (string * string)) :
  In kv h ->
  exists before after,
    PrintHeaders h = (before ++ header_line kv ++ after)%string.
Proof.
  induction h as [|e h IH]; intros Hin; [destruct Hin|].
  rewrite PrintHeaders_cons. destruct Hin as [->|Hin].
  - exists ""%string, (PrintHeaders h). reflexivity.
  - destruct (IH Hin) as (before & after & Heq).
    exists (header_line e ++ before)%string, after.
    rewrite Heq, string_append_assoc. reflexivity.
Qed.

(** X18. The dump of a response leaves nothing out: it starts with the
    status code, every header of the response has its line, two spaces,
    name, colon, space, value, in it, and it ends with the whole body
    between the EOF marks. *)
Theorem print_Response_leaves_nothing_out (resp : Response.t) :
  (exists rest,
      print_Response resp
      = ("status_code: " ++ print_int (Response.status_code resp) ++ endl
         ++ rest)%string) /\
  (forall kv, In kv (Response.headers resp) ->
      exists before after,
        print_Response resp
        = (before ++ header_line kv ++ after)%string) /\
  (exists before,
      print_Response resp
      = (before ++ "body: <<EOF" ++ endl ++ Response.body resp
         ++ "EOF" ++ endl)%string).
Proof.
  unfold print_Response. split; [|split].
  - eexists. reflexivity.
  - intros kv Hin.
    destruct (PrintHeaders_In kv _ Hin) as (before & after & Heq).
    rewrite Heq.
    eexists ("status_code: " ++ print_int (Response.status_code resp) ++ endl
             ++ "headers {" ++ endl ++ before)%string, _.
    rewrite !string_append_assoc. reflexivity.
  - eexists ("status_code: " ++ print_int (Response.status_code resp) ++ endl
             ++ "headers {" ++ endl
             ++ PrintHeaders (Response.headers resp) ++ "}" ++ endl)%string.
    rewrite !string_append_assoc. reflexivity.
Qed.

Lemma print_Response_leaves_nothing_out_witness :
  In ("X-Test", "1") (Response.headers (Response.mk 204 [("X-Test", "1")] "")) /\
  exists before after,
    print_Response (Response.mk 204 [("X-Test", "1")] "")
    = (before ++ header_line ("X-Test", "1") ++ after)%string.
Proof.
  assert (H1 : In ("X-Test", "1")
                 (Response.headers (Response.mk 204 [("X-Test", "1")] "")))
    by (left; reflexivity).
  split; [exact H1|].
  apply (proj1 (proj2 (print_Response_leaves_nothing_out
                         (Response.mk 204 [("X-Test", "1")] "")))
           ("X-Test", "1") H1).
Defined.
